(** * EduSong: the song audio-resolution workflow

    A shallow embedding of the server side of EduSong
    ([server/routes.ts], [server/storage.ts], [server/suno.ts],
    [shared/schema.ts]) and the properties of its lyrics generator, of song
    creation and of the two audio-resolution paths (provider webhook and
    client poll).

    Conventions of the embedding.
    - A JavaScript string is its sequence of UTF-16 code units.
    - A JavaScript value is a [value]; the fields of a stored song hold values,
      because the in-memory store keeps whatever the handlers pass to it (the
      TypeScript types are erased at run time and the payloads are [any]).
    - A handler is a computation over the server state that may throw; its
      [try]/[catch] is [handle].  Requests are served one at a time.
    - The answers of the external collaborators (text generation, the rendering
      provider, the clock and the UUID source) are inputs of the handlers. *)

From Stdlib Require Import List ZArith NArith Bool Ascii String Lia.
From Stdlib Require Import Floats.SpecFloat.
Import ListNotations.

Local Open Scope string_scope.
Local Open Scope list_scope.

Set Implicit Arguments.
Set Warnings "-register-all".

(** ** Strings *)

Module JsString.

(** A string is a list of UTF-16 code units. *)
Definition t : Type := list N.

(** The string denoted by an ASCII literal of the source. *)
Definition str (s : string) : t := map N_of_ascii (list_ascii_of_string s).

Fixpoint eqb (a b : t) : bool :=
  match a, b with
  | [], [] => true
  | x :: a', y :: b' => N.eqb x y && eqb a' b'
  | _, _ => false
  end.

Definition is_empty (s : t) : bool :=
  match s with [] => true | _ :: _ => false end.

(** [isPrefixOf p s]: does [s] start with [p]? *)
Fixpoint starts_with (p s : t) : bool :=
  match p, s with
  | [], _ => true
  | x :: p', y :: s' => N.eqb x y && starts_with p' s'
  | _ :: _, [] => false
  end.

(** ECMAScript [WhiteSpace] and [LineTerminator] code units, the ones
    [String.prototype.trim] removes. *)
Definition is_trim_space (c : N) : bool :=
  ((9 <=? c) && (c <=? 13) || (c =? 32) || (c =? 160) || (c =? 5760)
   || (8192 <=? c) && (c <=? 8202)
   || (c =? 8232) || (c =? 8233) || (c =? 8239) || (c =? 8287)
   || (c =? 12288) || (c =? 65279))%N.

Fixpoint trim_start (s : t) : t :=
  match s with
  | c :: s' => if is_trim_space c then trim_start s' else s
  | [] => []
  end.

(** [s.trim()] *)
Definition trim (s : t) : t := rev (trim_start (rev (trim_start s))).

(** [s.substring(0, n)] *)
Definition substring0 (n : nat) (s : t) : t := firstn n s.

End JsString.

Abbreviation jsstring := JsString.t.
Abbreviation str := JsString.str.

(** ** Values *)

(** A number is an IEEE 754 binary64 value. *)
Definition number : Type := spec_float.

Inductive value : Type :=
| VUndefined
| VNull
| VBool (b : bool)
| VNumber (n : number)
| VString (s : jsstring)
| VArray (elems : list value)
| VObject (props : list (jsstring * value)).

(** [ToBoolean]: the falsy values are [undefined], [null], [false], [+0], [-0],
    [NaN] and the empty string. *)
Definition truthy (v : value) : bool :=
  match v with
  | VUndefined | VNull => false
  | VBool b => b
  | VNumber (S754_zero _) | VNumber S754_nan => false
  | VNumber _ => true
  | VString s => negb (JsString.is_empty s)
  | VArray _ | VObject _ => true
  end.

(** [a === b].  Objects and arrays are equal only to themselves; the two sides
    of every [===] of this program come from different messages (or one side is
    a string literal), so two objects or arrays met here are never the same
    one. *)
Definition strict_eq (a b : value) : bool :=
  match a, b with
  | VUndefined, VUndefined => true
  | VNull, VNull => true
  | VBool x, VBool y => Bool.eqb x y
  | VNumber x, VNumber y => SFeqb x y
  | VString x, VString y => JsString.eqb x y
  | _, _ => false
  end.

(** [a || b] *)
Definition or_else (a b : value) : value := if truthy a then a else b.

(** [a ?? b] *)
Definition nullish_or (a b : value) : value :=
  match a with
  | VUndefined | VNull => b
  | _ => a
  end.

Definition is_nullish (v : value) : bool :=
  match v with
  | VUndefined | VNull => true
  | _ => false
  end.

(** ** Exceptions *)

(** What a [throw] carries: an [Error] (of any subclass) with its message, or
    some other value. *)
Inductive exn : Type :=
| JsError (message : jsstring)
| JsThrown (v : value).

Inductive outcome (A : Type) : Type :=
| Ok (a : A)
| Throw (e : exn).

Arguments Ok {A} a.
Arguments Throw {A} e.

Definition obind {A B} (o : outcome A) (k : A -> outcome B) : outcome B :=
  match o with
  | Ok a => k a
  | Throw e => Throw e
  end.

(** [err instanceof Error ? err.message : fallback] *)
Definition message_or (e : exn) (fallback : jsstring) : jsstring :=
  match e with
  | JsError m => m
  | JsThrown _ => fallback
  end.

(** ** Property access *)

(** The own property [k] of an object, [undefined] when there is none. *)
Fixpoint own_prop (props : list (jsstring * value)) (k : jsstring) : value :=
  match props with
  | [] => VUndefined
  | (k', v) :: rest => if JsString.eqb k' k then v else own_prop rest k
  end.

(** The [TypeError] of reading a property of [undefined] or [null] (the
    message is the one of V8). *)
Definition cannot_read (base : value) (k : jsstring) : exn :=
  JsError (str "Cannot read properties of "
           ++ (match base with VNull => str "null" | _ => str "undefined" end)
           ++ str " (reading '" ++ k ++ str "')").

(** [v.k], for the property names this program reads ([data], [task_id],
    [taskId], [callbackType], [audio_url], [title], ...): none of them is
    defined on a built-in prototype, so only an object's own property is found. *)
Definition get (v : value) (k : jsstring) : outcome value :=
  match v with
  | VUndefined | VNull => Throw (cannot_read v k)
  | VObject props => Ok (own_prop props k)
  | VBool _ | VNumber _ | VString _ | VArray _ => Ok VUndefined
  end.

(** [v?.k] *)
Definition get_opt (v : value) (k : jsstring) : value :=
  match v with
  | VObject props => own_prop props k
  | _ => VUndefined
  end.

(** [v[0]] *)
Definition get_index0 (v : value) : outcome value :=
  match v with
  | VUndefined | VNull => Throw (cannot_read v (str "0"))
  | VArray elems => Ok (hd VUndefined elems)
  | VString s => Ok (match s with [] => VUndefined | c :: _ => VString [c] end)
  | VObject props => Ok (own_prop props (str "0"))
  | VBool _ | VNumber _ => Ok VUndefined
  end.

(** [Array.isArray(v)] *)
Definition is_array (v : value) : bool :=
  match v with
  | VArray _ => true
  | _ => false
  end.

(** ** [JSON.parse]

    The response texts of the text-generation service and of the rendering
    provider are parsed by the built-in [JSON.parse].  It is modelled in two
    passes over the text: a lexer that reads one code unit at a time, and a
    parser over the tokens with an explicit stack of the enclosing arrays
    and objects. *)

Module Json.

Definition code (a : ascii) : N := N_of_ascii a.

Definition is_digit (c : N) : bool := ((48 <=? c) && (c <=? 57))%N.
Definition is_lower (c : N) : bool := ((97 <=? c) && (c <=? 122))%N.

(** JSON white space: tab, line feed, carriage return, space. *)
Definition is_ws (c : N) : bool :=
  ((c =? 9) || (c =? 10) || (c =? 13) || (c =? 32))%N.

(** The code units a number literal is made of. *)
Definition is_number_char (c : N) : bool :=
  is_digit c
  || (c =? code "-")%N || (c =? code "+")%N || (c =? code ".")%N
  || (c =? code "e")%N || (c =? code "E")%N.

Definition hex_value (c : N) : option N :=
  if is_digit c then Some (c - 48)%N
  else if ((97 <=? c) && (c <=? 102))%N then Some (c - 87)%N
  else if ((65 <=? c) && (c <=? 70))%N then Some (c - 55)%N
  else None.

(** *** Numbers *)

Definition prec : Z := 53.
Definition emax : Z := 1024.

Fixpoint take_digits (s : jsstring) : jsstring * jsstring :=
  match s with
  | c :: s' =>
      if is_digit c
      then let (ds, rest) := take_digits s' in (c :: ds, rest)
      else ([], s)
  | [] => ([], [])
  end.

Definition digits_value (ds : jsstring) : Z :=
  fold_left (fun acc c => acc * 10 + Z.of_N (c - 48))%Z ds 0%Z.

(** The binary64 value nearest to [(-1)^neg * m * 10^e] (ties to even),
    for [m >= 0]. *)
Definition decimal_to_number (neg : bool) (m e : Z) : number :=
  if (m =? 0)%Z then S754_zero neg
  else if (0 <=? e)%Z
  then binary_normalize prec emax
         (if neg then - (m * 10 ^ e) else m * 10 ^ e)%Z 0%Z neg
  else SFdiv prec emax
         (S754_finite neg (Z.to_pos m) 0%Z)
         (S754_finite false (Z.to_pos (10 ^ (- e))) 0%Z).

(** The optional exponent part of a number literal: [None] when malformed. *)
Definition parse_exponent (s : jsstring) : option Z :=
  match s with
  | [] => Some 0%Z
  | c :: s' =>
      if ((c =? code "e") || (c =? code "E"))%N then
        let (neg, s'') :=
          match s' with
          | d :: t =>
              if (d =? code "-")%N then (true, t)
              else if (d =? code "+")%N then (false, t)
              else (false, s')
          | [] => (false, s')
          end in
        match take_digits s'' with
        | ((_ :: _) as ds, []) =>
            Some (if neg then - digits_value ds else digits_value ds)%Z
        | _ => None
        end
      else None
  end.

(** A whole number literal: an optional minus sign; the integer part, [0] or
    digits that do not start with [0]; an optional fraction, a dot and at
    least one digit; an optional exponent, [e] or [E], an optional sign and
    at least one digit. *)
Definition parse_number (s : jsstring) : option number :=
  let (neg, s1) :=
    match s with
    | c :: t => if (c =? code "-")%N then (true, t) else (false, s)
    | [] => (false, s)
    end in
  let (ints, s2) := take_digits s1 in
  let int_ok :=
    match ints with
    | [] => false
    | [ _ ] => true
    | c :: _ :: _ => negb (c =? code "0")%N
    end in
  if negb int_ok then None
  else
    let frac :=
      match s2 with
      | c :: t =>
          if (c =? code ".")%N then
            match take_digits t with
            | ((_ :: _) as ds, s3) => Some (ds, s3)
            | ([], _) => None
            end
          else Some ([], s2)
      | [] => Some ([], s2)
      end in
    match frac with
    | None => None
    | Some (fracs, s3) =>
        match parse_exponent s3 with
        | None => None
        | Some e =>
            Some (decimal_to_number neg (digits_value (ints ++ fracs))
                    (e - Z.of_nat (List.length fracs)))
        end
    end.

(** *** Lexer *)

Inductive token : Type :=
| TLBrace | TRBrace | TLBracket | TRBracket | TComma | TColon
| TStr (s : jsstring)
| TNum (n : number)
| TTrue | TFalse | TNull.

(** Where the lexer is; the code units gathered so far are kept in reverse. *)
Inductive lex_state : Type :=
| LIdle
| LString (acc : jsstring)
| LEscape (acc : jsstring)
| LUnicode (acc : jsstring) (digits : list N)
| LNumber (lexeme : jsstring)
| LWord (lexeme : jsstring).

Definition word_token (lexeme : jsstring) : option token :=
  if JsString.eqb lexeme (str "true") then Some TTrue
  else if JsString.eqb lexeme (str "false") then Some TFalse
  else if JsString.eqb lexeme (str "null") then Some TNull
  else None.

Definition escape_char (c : N) : option N :=
  if (c =? 34)%N then Some 34%N
  else if (c =? code "\")%N then Some 92%N
  else if (c =? code "/")%N then Some 47%N
  else if (c =? code "b")%N then Some 8%N
  else if (c =? code "f")%N then Some 12%N
  else if (c =? code "n")%N then Some 10%N
  else if (c =? code "r")%N then Some 13%N
  else if (c =? code "t")%N then Some 9%N
  else None.

(** Between tokens. *)
Definition idle_step (c : N) : option (lex_state * list token) :=
  if is_ws c then Some (LIdle, [])
  else if (c =? code "{")%N then Some (LIdle, [TLBrace])
  else if (c =? code "}")%N then Some (LIdle, [TRBrace])
  else if (c =? code "[")%N then Some (LIdle, [TLBracket])
  else if (c =? code "]")%N then Some (LIdle, [TRBracket])
  else if (c =? code ",")%N then Some (LIdle, [TComma])
  else if (c =? code ":")%N then Some (LIdle, [TColon])
  else if (c =? 34)%N then Some (LString [], [])
  else if (is_digit c || (c =? code "-")%N) then Some (LNumber [c], [])
  else if is_lower c then Some (LWord [c], [])
  else None.

(** The token a pending number or word ends with. *)
Definition close_pending (st : lex_state) : option (list token) :=
  match st with
  | LIdle => Some []
  | LNumber lexeme => option_map (fun n => [TNum n]) (parse_number (rev lexeme))
  | LWord lexeme => option_map (fun t => [t]) (word_token (rev lexeme))
  | LString _ | LEscape _ | LUnicode _ _ => None
  end.

Definition lex_step (st : lex_state) (c : N) : option (lex_state * list token) :=
  match st with
  | LIdle => idle_step c
  | LString acc =>
      if (c =? 34)%N then Some (LIdle, [TStr (rev acc)])
      else if (c =? 92)%N then Some (LEscape acc, [])
      else if (c <? 32)%N then None
      else Some (LString (c :: acc), [])
  | LEscape acc =>
      if (c =? code "u")%N then Some (LUnicode acc [], [])
      else option_map (fun e => (LString (e :: acc), [])) (escape_char c)
  | LUnicode acc digits =>
      match hex_value c with
      | None => None
      | Some h =>
          match digits with
          | [a; b; d] =>
              Some (LString ((((a * 16 + b) * 16 + d) * 16 + h)%N :: acc), [])
          | _ => Some (LUnicode acc (digits ++ [h]), [])
          end
      end
  | LNumber lexeme =>
      if is_number_char c then Some (LNumber (c :: lexeme), [])
      else
        match close_pending st, idle_step c with
        | Some out, Some (st', out') => Some (st', out ++ out')
        | _, _ => None
        end
  | LWord lexeme =>
      if is_lower c then Some (LWord (c :: lexeme), [])
      else
        match close_pending st, idle_step c with
        | Some out, Some (st', out') => Some (st', out ++ out')
        | _, _ => None
        end
  end.

Fixpoint lex (s : jsstring) (st : lex_state) : option (list token) :=
  match s with
  | [] => close_pending st
  | c :: s' =>
      match lex_step st c with
      | None => None
      | Some (st', out) => option_map (app out) (lex s' st')
      end
  end.

(** *** Parser *)

(** An enclosing array with the elements read so far (in reverse), or an
    enclosing object with its properties so far and the key whose value is
    being read. *)
Inductive frame : Type :=
| FArray (acc : list value)
| FObject (acc : list (jsstring * value)) (key : jsstring).

(** What the parser expects next. *)
Inductive parse_state : Type :=
| PValue (stack : list frame)
| PArrayOpen (stack : list frame)
| PObjectOpen (stack : list frame)
| PKey (acc : list (jsstring * value)) (stack : list frame)
| PColon (acc : list (jsstring * value)) (key : jsstring) (stack : list frame)
| PDone (v : value) (stack : list frame).

(** Defining a property: a repeated key keeps its place and takes the later
    value. *)
Fixpoint define_prop (props : list (jsstring * value)) (k : jsstring) (v : value)
  : list (jsstring * value) :=
  match props with
  | [] => [(k, v)]
  | (k', v') :: rest =>
      if JsString.eqb k' k then (k', v) :: rest
      else (k', v') :: define_prop rest k v
  end.

(** A token where a value must start. *)
Definition start_value (t : token) (stack : list frame) : option parse_state :=
  match t with
  | TStr s => Some (PDone (VString s) stack)
  | TNum n => Some (PDone (VNumber n) stack)
  | TTrue => Some (PDone (VBool true) stack)
  | TFalse => Some (PDone (VBool false) stack)
  | TNull => Some (PDone VNull stack)
  | TLBracket => Some (PArrayOpen stack)
  | TLBrace => Some (PObjectOpen stack)
  | TRBrace | TRBracket | TComma | TColon => None
  end.

Definition parse_step (st : parse_state) (t : token) : option parse_state :=
  match st with
  | PValue stack => start_value t stack
  | PArrayOpen stack =>
      match t with
      | TRBracket => Some (PDone (VArray []) stack)
      | _ => start_value t (FArray [] :: stack)
      end
  | PObjectOpen stack =>
      match t with
      | TRBrace => Some (PDone (VObject []) stack)
      | TStr k => Some (PColon [] k stack)
      | _ => None
      end
  | PKey acc stack =>
      match t with
      | TStr k => Some (PColon acc k stack)
      | _ => None
      end
  | PColon acc k stack =>
      match t with
      | TColon => Some (PValue (FObject acc k :: stack))
      | _ => None
      end
  | PDone v (FArray acc :: stack) =>
      match t with
      | TComma => Some (PValue (FArray (v :: acc) :: stack))
      | TRBracket => Some (PDone (VArray (rev (v :: acc))) stack)
      | _ => None
      end
  | PDone v (FObject acc k :: stack) =>
      match t with
      | TComma => Some (PKey (define_prop acc k v) stack)
      | TRBrace => Some (PDone (VObject (define_prop acc k v)) stack)
      | _ => None
      end
  | PDone _ [] => None
  end.

Fixpoint parse_tokens (ts : list token) (st : parse_state) : option value :=
  match ts with
  | [] => match st with PDone v [] => Some v | _ => None end
  | t :: ts' =>
      match parse_step st t with
      | None => None
      | Some st' => parse_tokens ts' st'
      end
  end.

(** [JSON.parse(text)]: [None] stands for the [SyntaxError] it throws. *)
Definition parse (text : jsstring) : option value :=
  match lex text LIdle with
  | None => None
  | Some ts => parse_tokens ts (PValue [])
  end.

End Json.

(** ** Songs ([shared/schema.ts]) *)

(** A row of the [songs] table.  [createdAt] is a [Date], kept as its time
    value in milliseconds. *)
Record Song : Type := mkSong {
  id : jsstring;
  title : value;
  topic : value;
  lyrics : value;
  rhythmPattern : value;
  culturalNotes : value;
  musicalStyle : value;
  sourceDocumentId : value;
  sourceText : value;
  audioUrl : value;
  sunoJobId : value;
  createdAt : Z
}.

(** [InsertSong]: a song without [id] and [createdAt]; a field left out of
    the object literal is [undefined]. *)
Record InsertSong : Type := mkInsertSong {
  ins_title : value;
  ins_topic : value;
  ins_lyrics : value;
  ins_rhythmPattern : value;
  ins_culturalNotes : value;
  ins_musicalStyle : value;
  ins_sourceDocumentId : value;
  ins_sourceText : value;
  ins_audioUrl : value;
  ins_sunoJobId : value
}.

(** [Partial<Song>]: [Some v] for a key the object has. *)
Record SongUpdates : Type := mkSongUpdates {
  upd_id : option jsstring;
  upd_title : option value;
  upd_topic : option value;
  upd_lyrics : option value;
  upd_rhythmPattern : option value;
  upd_culturalNotes : option value;
  upd_musicalStyle : option value;
  upd_sourceDocumentId : option value;
  upd_sourceText : option value;
  upd_audioUrl : option value;
  upd_sunoJobId : option value;
  upd_createdAt : option Z
}.

(** The object literal [{ audioUrl }]. *)
Definition only_audioUrl (url : value) : SongUpdates :=
  {| upd_id := None; upd_title := None; upd_topic := None; upd_lyrics := None;
     upd_rhythmPattern := None; upd_culturalNotes := None;
     upd_musicalStyle := None; upd_sourceDocumentId := None;
     upd_sourceText := None; upd_audioUrl := Some url; upd_sunoJobId := None;
     upd_createdAt := None |}.

Definition override {A} (old : A) (new : option A) : A :=
  match new with
  | Some a => a
  | None => old
  end.

(** [{ ...existing, ...updates }] *)
Definition spread (existing : Song) (updates : SongUpdates) : Song :=
  {| id := override (id existing) (upd_id updates);
     title := override (title existing) (upd_title updates);
     topic := override (topic existing) (upd_topic updates);
     lyrics := override (lyrics existing) (upd_lyrics updates);
     rhythmPattern := override (rhythmPattern existing) (upd_rhythmPattern updates);
     culturalNotes := override (culturalNotes existing) (upd_culturalNotes updates);
     musicalStyle := override (musicalStyle existing) (upd_musicalStyle updates);
     sourceDocumentId :=
       override (sourceDocumentId existing) (upd_sourceDocumentId updates);
     sourceText := override (sourceText existing) (upd_sourceText updates);
     audioUrl := override (audioUrl existing) (upd_audioUrl updates);
     sunoJobId := override (sunoJobId existing) (upd_sunoJobId updates);
     createdAt := override (createdAt existing) (upd_createdAt updates) |}.

(** [song] with its [audioUrl] replaced: what [spread song (only_audioUrl url)]
    is. *)
Definition with_audioUrl (url : value) (song : Song) : Song :=
  {| id := id song; title := title song; topic := topic song;
     lyrics := lyrics song; rhythmPattern := rhythmPattern song;
     culturalNotes := culturalNotes song; musicalStyle := musicalStyle song;
     sourceDocumentId := sourceDocumentId song; sourceText := sourceText song;
     audioUrl := url; sunoJobId := sunoJobId song;
     createdAt := createdAt song |}.

(** ** Insertion-ordered maps (the built-in [Map] with string keys) *)

Module JsMap.

Section Ops.

Variable V : Type.

(** The entries in insertion order; a key occurs once. *)
Definition t : Type := list (jsstring * V).

(** [m.get(k)] *)
Fixpoint get (m : t) (k : jsstring) : option V :=
  match m with
  | [] => None
  | (k', v) :: m' => if JsString.eqb k' k then Some v else get m' k
  end.

(** [m.set(k, v)]: an existing key keeps its place. *)
Fixpoint set (m : t) (k : jsstring) (v : V) : t :=
  match m with
  | [] => [(k, v)]
  | (k', v') :: m' =>
      if JsString.eqb k' k then (k', v) :: m' else (k', v') :: set m' k v
  end.

(** [m.delete(k)] *)
Fixpoint delete (m : t) (k : jsstring) : bool * t :=
  match m with
  | [] => (false, [])
  | (k', v') :: m' =>
      if JsString.eqb k' k then (true, m')
      else let (found, m'') := delete m' k in (found, (k', v') :: m'')
  end.

(** [Array.from(m.values())] *)
Definition values (m : t) : list V := map snd m.

End Ops.

End JsMap.

(** ** The server state and its computations *)

(** The calls a handler makes to the external collaborators. *)
Inductive external_call : Type :=
| CallTextGeneration
| CallSunoGenerate
| CallSunoDetails (jobId : value).

(** [songs] is the map of [MemStorage]; its [documents] map is neither read
    nor written by the song operations and is left out.  [calls] records the
    external calls made so far. *)
Record State : Type := mkState {
  songs : JsMap.t Song;
  calls : list external_call
}.

(** A computation reads and writes the state and returns or throws; the
    state written before a [throw] stays written. *)
Definition M (A : Type) : Type := State -> outcome A * State.

Definition ret {A} (a : A) : M A := fun st => (Ok a, st).

Definition bind {A B} (m : M A) (k : A -> M B) : M B :=
  fun st =>
    match m st with
    | (Ok a, st') => k a st'
    | (Throw e, st') => (Throw e, st')
    end.

Definition lift {A} (o : outcome A) : M A := fun st => (o, st).

Definition try_catch {A} (m : M A) (handler : exn -> M A) : M A :=
  fun st =>
    match m st with
    | (Ok a, st') => (Ok a, st')
    | (Throw e, st') => handler e st'
    end.

(** An awaited call to a collaborator that answers [answer]. *)
Definition external {A} (c : external_call) (answer : outcome A) : M A :=
  fun st => (answer, {| songs := songs st; calls := calls st ++ [c] |}).

Declare Scope js_scope.
Delimit Scope js_scope with js.
Notation "x <- m ;; k" := (bind m (fun x => k))
  (at level 61, m at next level, right associativity) : js_scope.
Notation "m ;; k" := (bind m (fun _ => k))
  (at level 61, right associativity) : js_scope.
Local Open Scope js_scope.

(** ** [MemStorage] ([server/storage.ts]) *)

(** Insertion of [x], which stood before all of [l], into [l] sorted by
    [createdAt] descending. *)
Fixpoint insert_newest_first (x : Song) (l : list Song) : list Song :=
  match l with
  | [] => [x]
  | y :: l' =>
      if (createdAt x <? createdAt y)%Z then y :: insert_newest_first x l'
      else x :: l
  end.

(** [l.sort((a, b) => new Date(b.createdAt).getTime() -
    new Date(a.createdAt).getTime())]: the stable sort, newest first. *)
Definition sort_newest_first (l : list Song) : list Song :=
  fold_right insert_newest_first [] l.

Definition getSongs : M (list Song) :=
  fun st => (Ok (sort_newest_first (JsMap.values (songs st))), st).

Definition getSong (id : jsstring) : M (option Song) :=
  fun st => (Ok (JsMap.get (songs st) id), st).

(** [uuid] is what [randomUUID()] returns and [now] the time of [new Date()]. *)
Definition createSong (insertSong : InsertSong) (uuid : jsstring) (now : Z)
  : M Song :=
  fun st =>
    let song :=
      {| id := uuid;
         title := ins_title insertSong;
         topic := ins_topic insertSong;
         lyrics := ins_lyrics insertSong;
         rhythmPattern := nullish_or (ins_rhythmPattern insertSong) VNull;
         culturalNotes := nullish_or (ins_culturalNotes insertSong) VNull;
         musicalStyle := nullish_or (ins_musicalStyle insertSong) VNull;
         sourceDocumentId := nullish_or (ins_sourceDocumentId insertSong) VNull;
         sourceText := nullish_or (ins_sourceText insertSong) VNull;
         audioUrl := nullish_or (ins_audioUrl insertSong) VNull;
         sunoJobId := nullish_or (ins_sunoJobId insertSong) VNull;
         createdAt := now |} in
    (Ok song, {| songs := JsMap.set (songs st) uuid song; calls := calls st |}).

Definition updateSong (id : jsstring) (updates : SongUpdates)
  : M (option Song) :=
  fun st =>
    match JsMap.get (songs st) id with
    | None => (Ok None, st)
    | Some existing =>
        let updated := spread existing updates in
        (Ok (Some updated),
         {| songs := JsMap.set (songs st) id updated; calls := calls st |})
    end.

Definition deleteSong (id : jsstring) : M bool :=
  fun st =>
    let (found, m) := JsMap.delete (songs st) id in
    (Ok found, {| songs := m; calls := calls st |}).

Notation "x <~ o ;; k" := (obind o (fun x => k))
  (at level 61, o at next level, right associativity) : js_scope.

(** ** The lyrics generator ([generateSongWithAI], [server/routes.ts]) *)

(** The answer of [openai.chat.completions.create]: its [choices], each with
    an optional [message] whose [content] is a string or [null]. *)
Record Message : Type := mkMessage { msg_content : option jsstring }.
Record Choice : Type := mkChoice { message : option Message }.
Definition ChatCompletion : Type := list Choice.

(** The object [generateSongWithAI] resolves to. *)
Record Generated : Type := mkGenerated {
  gen_title : value;
  gen_topic : value;
  gen_lyrics : value;
  gen_rhythmPattern : value;
  gen_culturalNotes : value
}.

(** [response.choices[0]?.message?.content || ""] *)
Definition completion_text (response : ChatCompletion) : jsstring :=
  match response with
  | [] => []
  | choice :: _ =>
      match message choice with
      | None => []
      | Some m =>
          match msg_content m with
          | None => []
          | Some text => text
          end
      end
  end.

(** [text.replace(/```json|```/g, "")]: [skip] counts the code units of a
    match still to be dropped. *)
Fixpoint strip_fences_from (skip : nat) (text : jsstring) : jsstring :=
  match text with
  | [] => []
  | c :: rest =>
      match skip with
      | S n => strip_fences_from n rest
      | O =>
          if JsString.starts_with (str "```json") text
          then strip_fences_from 6 rest
          else if JsString.starts_with (str "```") text
          then strip_fences_from 2 rest
          else c :: strip_fences_from 0 rest
      end
  end.

Definition strip_fences (text : jsstring) : jsstring := strip_fences_from 0 text.

(** [text.replace(/```json|```/g, "").trim()] *)
Definition clean_json (text : jsstring) : jsstring :=
  JsString.trim (strip_fences text).

(** The result for an empty answer. *)
Definition placeholder_song : Generated :=
  {| gen_title := VString (str "Untitled Song");
     gen_topic := VString (str "General");
     gen_lyrics := VString [];
     gen_rhythmPattern := VString [];
     gen_culturalNotes := VString [] |}.

(** The object that stands in for an answer that is not JSON. *)
Definition raw_text_object (text : jsstring) : value :=
  VObject [ (str "title", VString (str "Untitled Song"));
            (str "topic", VString (str "General"));
            (str "lyrics", VString text);
            (str "rhythmPattern", VString []);
            (str "culturalNotes", VString []) ].

(** The part of [generateSongWithAI] after the awaited call. *)
Definition song_of_text (text : jsstring) : outcome Generated :=
  let cleanJson := clean_json text in
  if JsString.is_empty (JsString.trim text) then Ok placeholder_song
  else
    let parsed :=
      match Json.parse cleanJson with
      | Some v => v
      | None => raw_text_object text
      end in
    t <~ get parsed (str "title") ;;
    p <~ get parsed (str "topic") ;;
    l <~ get parsed (str "lyrics") ;;
    r <~ get parsed (str "rhythmPattern") ;;
    c <~ get parsed (str "culturalNotes") ;;
    Ok {| gen_title := or_else t (VString (str "Untitled Song"));
          gen_topic := or_else p (VString (str "General"));
          gen_lyrics := or_else l (VString []);
          gen_rhythmPattern := or_else r (VString []);
          gen_culturalNotes := or_else c (VString []) |}.

(** [generateSongWithAI(content, musicalStyle, complexity)]; [completion] is
    the outcome of the call to the text-generation service (the prompt built
    from the three arguments only goes into that call). *)
Definition generateSongWithAI (completion : outcome ChatCompletion)
  : M Generated :=
  try_catch
    (response <- external CallTextGeneration completion ;;
     lift (song_of_text (completion_text response)))
    (fun err =>
       lift (Throw (JsError (message_or err (str "Failed to generate song"))))).

(** ** The rendering provider ([server/suno.ts]) *)

(** The answer of [fetch]: [response.ok] and the text of the body. *)
Record HttpResponse : Type := mkHttpResponse {
  ok : bool;
  body_text : jsstring
}.

(** [response.json()]; the message of the [SyntaxError] is the engine's. *)
Definition response_json (response : HttpResponse) : outcome value :=
  match Json.parse (body_text response) with
  | Some v => Ok v
  | None => Throw (JsError (str "Unexpected token in JSON"))
  end.

(** The part of [generateMusicWithSuno] after the awaited [fetch]: the
    [sunoJobId] of the object it returns. *)
Definition job_id_of_response (response : HttpResponse) : outcome value :=
  if negb (ok response)
  then Throw (JsError (str "Suno API error: " ++ body_text response))
  else
    json <~ response_json response ;;
    data <~ get json (str "data") ;;
    get data (str "taskId").

(** [generateMusicWithSuno(params)]; [fetched] is the outcome of the
    [fetch] (the parameters only go into the request). *)
Definition generateMusicWithSuno (fetched : outcome HttpResponse) : M value :=
  response <- external CallSunoGenerate fetched ;;
  lift (job_id_of_response response).

(** [getSunoMusicDetails(jobId)]; [axios_get jobId] is the [data] of the
    provider's answer to the status query, or what [axios.get] throws. *)
Definition getSunoMusicDetails (axios_get : value -> outcome value)
  (jobId : value) : M value :=
  external (CallSunoDetails jobId) (axios_get jobId).

(** ** Request validation ([generateSongRequestSchema], [shared/schema.ts]) *)

Record GenerateSongRequest : Type := mkGenerateSongRequest {
  req_content : jsstring;
  req_documentId : option jsstring;
  req_musicalStyle : jsstring;
  req_complexity : jsstring
}.

(** [z.enum(options).default(dflt)] applied to a field. *)
Definition parse_enum (options : list jsstring) (dflt : jsstring) (v : value)
  : option jsstring :=
  match v with
  | VUndefined => Some dflt
  | VString s => if existsb (JsString.eqb s) options then Some s else None
  | _ => None
  end.

(** [generateSongRequestSchema.safeParse(body)]: the data when the
    validation succeeds. *)
Definition safeParse (body : value) : option GenerateSongRequest :=
  match body with
  | VObject props =>
      match own_prop props (str "content") with
      | VString content =>
          if (10 <=? List.length content)%nat then
            match
              (match own_prop props (str "documentId") with
               | VUndefined => Some None
               | VString d => Some (Some d)
               | _ => None
               end),
              parse_enum [str "traditional"; str "highlife"; str "afrobeat";
                          str "palm-wine"]
                (str "traditional") (own_prop props (str "musicalStyle")),
              parse_enum [str "simple"; str "moderate"; str "advanced"]
                (str "simple") (own_prop props (str "complexity"))
            with
            | Some documentId, Some musicalStyle, Some complexity =>
                Some {| req_content := content;
                        req_documentId := documentId;
                        req_musicalStyle := musicalStyle;
                        req_complexity := complexity |}
            | _, _, _ => None
            end
          else None
      | _ => None
      end
  | _ => None
  end.

(** ** The routes ([registerRoutes], [server/routes.ts]) *)

(** The JSON bodies the song routes answer with. *)
Inductive body : Type :=
| JsonMessage (message : jsstring)   (* { message } *)
| JsonInvalidRequest                 (* { message: "Invalid request", errors } *)
| JsonReceived                       (* { received: true } *)
| JsonRunning                        (* { status: "running" } *)
| JsonSuccess (audioUrl : value)     (* { status: "success", audioUrl } *)
| JsonSong (song : Song)
| NoContent.

Record response : Type := mkResponse {
  status : nat;
  payload : body
}.

(** [res.status(code).json(b)] *)
Definition respond (code : nat) (b : body) : response :=
  {| status := code; payload := b |}.

(** [res.json(b)] *)
Definition json (b : body) : response := respond 200 b.

(** [try { ... } catch (error) { ... }] around the body of a handler. *)
Definition handle (attempt : M response) (on_error : exn -> response)
  (st : State) : response * State :=
  match attempt st with
  | (Ok r, st') => (r, st')
  | (Throw e, st') => (on_error e, st')
  end.

(** [data.callbackType === "complete" && data.data && data.data[0]?.audio_url],
    and then [data.data[0].audio_url]: the URL to store, if any. *)
Definition completed_audio_url (data : value) : outcome (option value) :=
  callbackType <~ get data (str "callbackType") ;;
  if negb (strict_eq callbackType (VString (str "complete"))) then Ok None
  else
    tracks <~ get data (str "data") ;;
    if negb (truthy tracks) then Ok None
    else
      first <~ get_index0 tracks ;;
      if negb (truthy (get_opt first (str "audio_url"))) then Ok None
      else
        first' <~ get_index0 tracks ;;
        audioUrl <~ get first' (str "audio_url") ;;
        Ok (Some audioUrl).

(** [POST /api/suno/callback] *)
Definition suno_callback (req_body : value) : State -> response * State :=
  handle
    (data <- lift (get req_body (str "data")) ;;
     taskId <- lift (get data (str "task_id")) ;;
     all <- getSongs ;;
     match find (fun s => strict_eq (sunoJobId s) taskId) all with
     | None => ret (respond 404 (JsonMessage (str "Song not found")))
     | Some song =>
         completed <- lift (completed_audio_url data) ;;
         match completed with
         | Some audioUrl => updateSong (id song) (only_audioUrl audioUrl) ;; ret tt
         | None => ret tt
         end ;;
         ret (respond 200 JsonReceived)
     end)
    (fun _ => respond 500 (JsonMessage (str "Failed to process callback"))).

(** The three places an audio URL is looked for, in the order of the
    [if] / [else if] chain; [null] when none has one. *)
Definition normalize_audio_url (taskData songArray : value) : outcome value :=
  in_array <~ (if is_array songArray
               then first <~ get_index0 songArray ;;
                    Ok (truthy (get_opt first (str "audio_url")))
               else Ok false) ;;
  if in_array then
    first <~ get_index0 songArray ;; get first (str "audio_url")
  else if truthy (get_opt songArray (str "audio_url")) then
    get songArray (str "audio_url")
  else
    top <~ get taskData (str "audio_url") ;;
    if truthy top then Ok top else Ok VNull.

(** [song?.audioUrl] and [song?.sunoJobId] *)
Definition opt_field (f : Song -> value) (song : option Song) : value :=
  match song with
  | Some s => f s
  | None => VUndefined
  end.

(** [GET /api/songs/:id/audio] *)
Definition poll_audio (axios_get : value -> outcome value) (param_id : jsstring)
  : State -> response * State :=
  handle
    (song <- getSong param_id ;;
     if truthy (opt_field audioUrl song) then
       ret (json (JsonSuccess (opt_field audioUrl song)))
     else if negb (truthy (opt_field sunoJobId song)) then
       ret (json JsonRunning)
     else
       sunoData <- getSunoMusicDetails axios_get (opt_field sunoJobId song) ;;
       inner <- lift (get sunoData (str "data")) ;;
       let taskData := or_else inner sunoData in
       songArray <- lift (get taskData (str "data")) ;;
       audio_url <- lift (normalize_audio_url taskData songArray) ;;
       callbackType <- lift (get taskData (str "callbackType")) ;;
       let isFinished := strict_eq callbackType (VString (str "complete")) in
       if isFinished && truthy audio_url then
         updateSong param_id (only_audioUrl audio_url) ;;
         ret (json (JsonSuccess audio_url))
       else ret (json JsonRunning))
    (fun _ => json JsonRunning).

(** [documentId || null] *)
Definition document_or_null (documentId : option jsstring) : value :=
  match documentId with
  | Some d => or_else (VString d) VNull
  | None => VNull
  end.

(** [POST /api/songs/generate]; [completion] and [fetched] are the outcomes
    of the calls to the text-generation service and to the provider's
    job-creation endpoint. *)
Definition generate_song (completion : outcome ChatCompletion)
  (fetched : outcome HttpResponse) (uuid : jsstring) (now : Z)
  (req_body : value) : State -> response * State :=
  handle
    (match safeParse req_body with
     | None => ret (respond 400 JsonInvalidRequest)
     | Some data =>
         generated <- generateSongWithAI completion ;;
         jobId <- generateMusicWithSuno fetched ;;
         song <- createSong
                   {| ins_title := gen_title generated;
                      ins_topic := gen_topic generated;
                      ins_lyrics := gen_lyrics generated;
                      ins_rhythmPattern := gen_rhythmPattern generated;
                      ins_culturalNotes := gen_culturalNotes generated;
                      ins_musicalStyle := VString (req_musicalStyle data);
                      ins_sourceDocumentId :=
                        document_or_null (req_documentId data);
                      ins_sourceText :=
                        VString (JsString.substring0 500 (req_content data));
                      ins_audioUrl := VUndefined;
                      ins_sunoJobId := jobId |}
                   uuid now ;;
         ret (respond 201 (JsonSong song))
     end)
    (fun error =>
       respond 500 (JsonMessage (message_or error (str "Failed to generate song")))).

(** [POST /api/songs] *)
Definition save_song (uuid : jsstring) (now : Z) (req_body : value)
  : State -> response * State :=
  handle
    (t <- lift (get req_body (str "title")) ;;
     p <- lift (get req_body (str "topic")) ;;
     l <- lift (get req_body (str "lyrics")) ;;
     r <- lift (get req_body (str "rhythmPattern")) ;;
     c <- lift (get req_body (str "culturalNotes")) ;;
     m <- lift (get req_body (str "musicalStyle")) ;;
     d <- lift (get req_body (str "sourceDocumentId")) ;;
     x <- lift (get req_body (str "sourceText")) ;;
     song <- createSong
               {| ins_title := t;
                  ins_topic := p;
                  ins_lyrics := l;
                  ins_rhythmPattern := or_else r VNull;
                  ins_culturalNotes := or_else c VNull;
                  ins_musicalStyle := or_else m VNull;
                  ins_sourceDocumentId := or_else d VNull;
                  ins_sourceText := or_else x VNull;
                  ins_audioUrl := VUndefined;
                  ins_sunoJobId := VUndefined |}
               uuid now ;;
     ret (respond 201 (JsonSong song)))
    (fun _ => respond 500 (JsonMessage (str "Failed to save song"))).

(** [DELETE /api/songs/:id] *)
Definition delete_song (param_id : jsstring) : State -> response * State :=
  handle
    (deleted <- deleteSong param_id ;;
     if negb deleted then ret (respond 404 (JsonMessage (str "Song not found")))
     else ret (respond 204 NoContent))
    (fun _ => respond 500 (JsonMessage (str "Failed to delete song"))).

(** ** The server as a state machine *)

(** A request that can change the songs, with the answers the collaborators
    give while it is served. *)
Inductive request : Type :=
| Generate (completion : outcome ChatCompletion) (fetched : outcome HttpResponse)
    (uuid : jsstring) (now : Z) (req_body : value)
| SaveSong (uuid : jsstring) (now : Z) (req_body : value)
| Callback (req_body : value)
| Poll (axios_get : value -> outcome value) (param_id : jsstring)
| DeleteSong (param_id : jsstring).

Definition serve (r : request) : State -> response * State :=
  match r with
  | Generate completion fetched uuid now req_body =>
      generate_song completion fetched uuid now req_body
  | SaveSong uuid now req_body => save_song uuid now req_body
  | Callback req_body => suno_callback req_body
  | Poll axios_get param_id => poll_audio axios_get param_id
  | DeleteSong param_id => delete_song param_id
  end.

(** The state after serving the requests one after the other. *)
Fixpoint serve_all (rs : list request) (st : State) : State :=
  match rs with
  | [] => st
  | r :: rs' => serve_all rs' (snd (serve r st))
  end.

(** A fresh [MemStorage]. *)
Definition initial : State := {| songs := []; calls := [] |}.

(** The states the server can be in. *)
Definition reachable (st : State) : Prop :=
  exists rs, serve_all rs initial = st.

(** * Properties *)

(** ** Strings and maps *)

Lemma jsstring_eqb_eq (a b : jsstring) : JsString.eqb a b = true <-> a = b.
Proof.
  revert b; induction a as [|x a IH]; intros [|y b]; simpl; split;
    try congruence; try reflexivity.
  - intros H. apply andb_true_iff in H as [Hx Hab].
    apply N.eqb_eq in Hx. apply IH in Hab. congruence.
  - intros H. injection H as -> ->.
    apply andb_true_iff; split; [apply N.eqb_refl | now apply IH].
Qed.

Lemma jsstring_eqb_refl (a : jsstring) : JsString.eqb a a = true.
Proof. now apply jsstring_eqb_eq. Qed.

Lemma jsstring_eqb_neq (a b : jsstring) : a <> b -> JsString.eqb a b = false.
Proof.
  intros H. destruct (JsString.eqb a b) eqn:E; [|reflexivity].
  apply jsstring_eqb_eq in E. contradiction.
Qed.

Lemma jsstring_eqb_false (a b : jsstring) : JsString.eqb a b = false -> a <> b.
Proof. intros H ->. rewrite jsstring_eqb_refl in H. discriminate. Qed.

Section MapFacts.

Variable V : Type.
Implicit Types (m : JsMap.t V) (k : jsstring) (v : V).

Lemma map_get_set_same m k v : JsMap.get (JsMap.set m k v) k = Some v.
Proof.
  induction m as [|[k' v'] m IH]; simpl.
  - now rewrite jsstring_eqb_refl.
  - destruct (JsString.eqb k' k) eqn:E; simpl; rewrite E; [reflexivity|exact IH].
Qed.

Lemma map_get_set_other m k k' v :
  k' <> k -> JsMap.get (JsMap.set m k v) k' = JsMap.get m k'.
Proof.
  intros Hne. induction m as [|[k0 v0] m IH]; simpl.
  - rewrite jsstring_eqb_neq by congruence. reflexivity.
  - destruct (JsString.eqb k0 k) eqn:E; simpl.
    + apply jsstring_eqb_eq in E. subst k0.
      rewrite jsstring_eqb_neq by congruence. reflexivity.
    + now rewrite IH.
Qed.

(** Writing back what is stored changes nothing. *)
Lemma map_set_same m k v : JsMap.get m k = Some v -> JsMap.set m k v = m.
Proof.
  induction m as [|[k' v'] m IH]; simpl; [discriminate|].
  destruct (JsString.eqb k' k) eqn:E.
  - now intros [= ->].
  - intros H. now rewrite IH.
Qed.


Lemma map_get_In m k v : JsMap.get m k = Some v -> In v (JsMap.values m).
Proof.
  induction m as [|[k' v'] m IH]; simpl; [discriminate|].
  destruct (JsString.eqb k' k).
  - intros [= ->]. now left.
  - intros H. right. now apply IH.
Qed.

(** Replacing the value of a stored key keeps the keys and their order. *)
Lemma map_set_keys m k v v0 :
  JsMap.get m k = Some v0 -> map fst (JsMap.set m k v) = map fst m.
Proof.
  induction m as [|[k' v'] m IH]; simpl; [discriminate|].
  destruct (JsString.eqb k' k) eqn:E; simpl; [reflexivity|].
  intros H. now rewrite IH.
Qed.


Lemma map_delete_In m k v :
  In v (JsMap.values (snd (JsMap.delete m k))) -> In v (JsMap.values m).
Proof.
  induction m as [|[k' v'] m IH]; simpl; [tauto|].
  destruct (JsString.eqb k' k); simpl.
  - now right.
  - destruct (JsMap.delete m k) as [found m'] eqn:D. simpl in *.
    intros [H|H]; [now left | right; now apply IH].
Qed.

Lemma map_set_In m k v x :
  In x (JsMap.values (JsMap.set m k v)) -> x = v \/ In x (JsMap.values m).
Proof.
  induction m as [|[k' v'] m IH]; simpl.
  - intros [H|[]]; now left.
  - destruct (JsString.eqb k' k); simpl.
    + intros [H|H]; [now left | right; now right].
    + intros [H|H]; [right; now left |].
      destruct (IH H); [now left | right; now right].
Qed.

End MapFacts.

(** ** Listing the songs *)

Lemma insert_newest_first_In x y l :
  In y (insert_newest_first x l) <-> y = x \/ In y l.
Proof.
  induction l as [|z l IH]; simpl.
  - intuition congruence.
  - destruct (createdAt x <? createdAt z)%Z; simpl; rewrite ?IH;
      intuition congruence.
Qed.

Lemma sort_newest_first_In y l : In y (sort_newest_first l) <-> In y l.
Proof.
  induction l as [|x l IH]; simpl; [tauto|].
  rewrite insert_newest_first_In, IH. intuition congruence.
Qed.

Section SortRelated.

(** Two lists of songs that agree, position by position, up to a relation
    that keeps the creation time are listed in the same order. *)
Variable R : Song -> Song -> Prop.
Hypothesis R_createdAt : forall x y, R x y -> createdAt x = createdAt y.




End SortRelated.


(** ** Updating a song *)

Lemma spread_only_audioUrl (url : value) (song : Song) :
  spread song (only_audioUrl url) = with_audioUrl url song.
Proof. reflexivity. Qed.


(** Every field but [audioUrl] is the same in both songs. *)
Definition same_except_audioUrl (a b : Song) : Prop :=
  id a = id b /\ title a = title b /\ topic a = topic b /\
  lyrics a = lyrics b /\ rhythmPattern a = rhythmPattern b /\
  culturalNotes a = culturalNotes b /\ musicalStyle a = musicalStyle b /\
  sourceDocumentId a = sourceDocumentId b /\ sourceText a = sourceText b /\
  sunoJobId a = sunoJobId b /\ createdAt a = createdAt b.

Lemma same_except_audioUrl_refl (a : Song) : same_except_audioUrl a a.
Proof. repeat split. Qed.

Lemma same_except_audioUrl_with (url : value) (a : Song) :
  same_except_audioUrl a (with_audioUrl url a).
Proof. repeat split. Qed.

(** ** The handlers, step by step *)

(** Reading a property of a value that is neither [undefined] nor [null]
    does not throw. *)
Lemma get_not_nullish (v : value) (k : jsstring) :
  is_nullish v = false -> get v k = Ok (get_opt v k).
Proof. destruct v; simpl; congruence. Qed.

Lemma get_ok_not_nullish (v r : value) (k : jsstring) :
  get v k = Ok r -> is_nullish v = false /\ r = get_opt v k.
Proof. destruct v; simpl; intros [= <-]; split; reflexivity. Qed.

Lemma truthy_not_nullish (v : value) : truthy v = true -> is_nullish v = false.
Proof. destruct v; simpl; congruence. Qed.

(** What the webhook stores, when it stores, is a truthy value. *)
Lemma completed_audio_url_truthy (data url : value) :
  completed_audio_url data = Ok (Some url) -> truthy url = true.
Proof.
  unfold completed_audio_url, obind.
  destruct (get data (str "callbackType")) as [c|]; [|discriminate].
  destruct (negb (strict_eq c (VString (str "complete")))); [discriminate|].
  destruct (get data (str "data")) as [tracks|]; [|discriminate].
  destruct (negb (truthy tracks)); [discriminate|].
  destruct (get_index0 tracks) as [first|]; [|discriminate].
  destruct (truthy (get_opt first (str "audio_url"))) eqn:T; simpl; [|discriminate].
  destruct first; simpl in T; try discriminate.
  simpl. now intros [= <-].
Qed.

(** The webhook handler as a decision on its input and on the store. *)
Lemma suno_callback_eq (req_body : value) (st : State) :
  suno_callback req_body st =
  match get req_body (str "data") with
  | Throw _ => (respond 500 (JsonMessage (str "Failed to process callback")), st)
  | Ok data =>
  match get data (str "task_id") with
  | Throw _ => (respond 500 (JsonMessage (str "Failed to process callback")), st)
  | Ok taskId =>
  match find (fun s => strict_eq (sunoJobId s) taskId)
          (sort_newest_first (JsMap.values (songs st))) with
  | None => (respond 404 (JsonMessage (str "Song not found")), st)
  | Some song =>
  match completed_audio_url data with
  | Throw _ => (respond 500 (JsonMessage (str "Failed to process callback")), st)
  | Ok None => (respond 200 JsonReceived, st)
  | Ok (Some audioUrl) =>
  match JsMap.get (songs st) (id song) with
  | None => (respond 200 JsonReceived, st)
  | Some existing =>
      (respond 200 JsonReceived,
       {| songs := JsMap.set (songs st) (id song) (with_audioUrl audioUrl existing);
          calls := calls st |})
  end end end end end.
Proof.
  unfold suno_callback, handle, bind, lift, ret, getSongs, updateSong.
  destruct (get req_body (str "data")) as [data|]; [|reflexivity].
  destruct (get data (str "task_id")) as [taskId|]; [|reflexivity].
  destruct (find _ _) as [song|]; [|reflexivity].
  destruct (completed_audio_url data) as [[url|]|]; try reflexivity.
  destruct (JsMap.get (songs st) (id song)); reflexivity.
Qed.

(** What the poll concludes from the provider's answer [sunoData]: the URL to
    store when the job is finished and a URL was found, nothing otherwise. *)
Definition poll_decision (sunoData : value) : outcome (option value) :=
  inner <~ get sunoData (str "data") ;;
  let taskData := or_else inner sunoData in
  songArray <~ get taskData (str "data") ;;
  audio_url <~ normalize_audio_url taskData songArray ;;
  callbackType <~ get taskData (str "callbackType") ;;
  if strict_eq callbackType (VString (str "complete")) && truthy audio_url
  then Ok (Some audio_url)
  else Ok None.

(** The state once the status of [jobId] has been queried. *)
Definition queried (jobId : value) (st : State) : State :=
  {| songs := songs st; calls := calls st ++ [CallSunoDetails jobId] |}.

(** The poll handler as a decision on the stored song and on the provider's
    answer. *)
Lemma poll_audio_eq (axios_get : value -> outcome value) (param_id : jsstring)
  (st : State) :
  poll_audio axios_get param_id st =
  match JsMap.get (songs st) param_id with
  | None => (json JsonRunning, st)
  | Some song =>
      if truthy (audioUrl song) then (json (JsonSuccess (audioUrl song)), st)
      else if negb (truthy (sunoJobId song)) then (json JsonRunning, st)
      else
        match obind (axios_get (sunoJobId song)) poll_decision with
        | Ok (Some url) =>
            (json (JsonSuccess url),
             {| songs := JsMap.set (songs st) param_id (with_audioUrl url song);
                calls := calls st ++ [CallSunoDetails (sunoJobId song)] |})
        | Ok None | Throw _ => (json JsonRunning, queried (sunoJobId song) st)
        end
  end.
Proof.
  unfold poll_audio, handle, bind, getSong, getSunoMusicDetails, external.
  destruct (JsMap.get (songs st) param_id) as [song|] eqn:G; simpl; [|reflexivity].
  destruct (truthy (audioUrl song)); [reflexivity|].
  destruct (truthy (sunoJobId song)); simpl; [|reflexivity].
  destruct (axios_get (sunoJobId song)) as [sunoData|]; simpl; [|reflexivity].
  unfold poll_decision, lift, obind, ret, updateSong, queried.
  destruct (get sunoData (str "data")) as [inner|]; [|reflexivity].
  destruct (get (or_else inner sunoData) (str "data")) as [songArray|];
    [|reflexivity].
  destruct (normalize_audio_url _ songArray) as [audio_url|]; [|reflexivity].
  destruct (get (or_else inner sunoData) (str "callbackType")) as [c|];
    [|reflexivity].
  destruct (strict_eq c (VString (str "complete")) && truthy audio_url);
    [|reflexivity].
  simpl. rewrite G. reflexivity.
Qed.

Lemma poll_decision_truthy (sunoData url : value) :
  poll_decision sunoData = Ok (Some url) -> truthy url = true.
Proof.
  unfold poll_decision, obind.
  destruct (get sunoData (str "data")) as [inner|]; [|discriminate].
  destruct (get (or_else inner sunoData) (str "data")) as [songArray|];
    [|discriminate].
  destruct (normalize_audio_url _ songArray) as [audio_url|]; [|discriminate].
  destruct (get (or_else inner sunoData) (str "callbackType")) as [c|];
    [|discriminate].
  destruct (strict_eq c (VString (str "complete"))); simpl; [|discriminate].
  destruct (truthy audio_url) eqn:T; [|discriminate].
  now intros [= <-].
Qed.

(** ** The songs a request leaves behind *)

(** A resolution request leaves the songs as they were or replaces the
    [audioUrl] of one stored song by a truthy value. *)
Definition resolves (before after : JsMap.t Song) : Prop :=
  after = before \/
  exists target existing url,
    JsMap.get before target = Some existing /\
    truthy url = true /\
    after = JsMap.set before target (with_audioUrl url existing).

Lemma suno_callback_resolves (req_body : value) (st : State) :
  resolves (songs st) (songs (snd (suno_callback req_body st))).
Proof.
  rewrite suno_callback_eq.
  destruct (get req_body (str "data")) as [data|]; [|now left].
  destruct (get data (str "task_id")) as [taskId|]; [|now left].
  destruct (find _ _) as [song|]; [|now left].
  destruct (completed_audio_url data) as [[url|]|] eqn:C; try now left.
  destruct (JsMap.get (songs st) (id song)) as [existing|] eqn:G; [|now left].
  right. exists (id song), existing, url. simpl.
  repeat split; [assumption | now apply completed_audio_url_truthy with data].
Qed.

Lemma poll_audio_resolves (axios_get : value -> outcome value)
  (param_id : jsstring) (st : State) :
  resolves (songs st) (songs (snd (poll_audio axios_get param_id st))).
Proof.
  rewrite poll_audio_eq.
  destruct (JsMap.get (songs st) param_id) as [song|] eqn:G; [|now left].
  destruct (truthy (audioUrl song)); [now left|].
  destruct (negb (truthy (sunoJobId song))); [now left|].
  destruct (axios_get (sunoJobId song)) as [sunoData|]; simpl; [|now left].
  destruct (poll_decision sunoData) as [[url|]|] eqn:D; try now left.
  right. exists param_id, song, url. simpl.
  repeat split; [assumption | now apply poll_decision_truthy with sunoData].
Qed.

(** The state once [c] has been called. *)
Definition called (c : external_call) (st : State) : State :=
  {| songs := songs st; calls := calls st ++ [c] |}.

(** What [generateSongWithAI] resolves to or rejects with. *)
Definition generation_outcome (completion : outcome ChatCompletion)
  : outcome Generated :=
  match obind completion (fun r => song_of_text (completion_text r)) with
  | Ok g => Ok g
  | Throw err => Throw (JsError (message_or err (str "Failed to generate song")))
  end.

Lemma generateSongWithAI_eq (completion : outcome ChatCompletion) (st : State) :
  generateSongWithAI completion st =
  (generation_outcome completion, called CallTextGeneration st).
Proof.
  unfold generateSongWithAI, generation_outcome, try_catch, bind, external,
    lift, called.
  destruct completion as [r|e]; simpl; [|reflexivity].
  destruct (song_of_text (completion_text r)); reflexivity.
Qed.

Lemma generateMusicWithSuno_eq (fetched : outcome HttpResponse) (st : State) :
  generateMusicWithSuno fetched st =
  (obind fetched job_id_of_response, called CallSunoGenerate st).
Proof.
  unfold generateMusicWithSuno, bind, external, lift, called.
  destruct fetched; reflexivity.
Qed.

(** The song [POST /api/songs/generate] stores. *)
Definition generated_song (generated : Generated) (data : GenerateSongRequest)
  (jobId : value) (uuid : jsstring) (now : Z) : Song :=
  {| id := uuid;
     title := gen_title generated;
     topic := gen_topic generated;
     lyrics := gen_lyrics generated;
     rhythmPattern := nullish_or (gen_rhythmPattern generated) VNull;
     culturalNotes := nullish_or (gen_culturalNotes generated) VNull;
     musicalStyle := VString (req_musicalStyle data);
     sourceDocumentId := nullish_or (document_or_null (req_documentId data)) VNull;
     sourceText := VString (JsString.substring0 500 (req_content data));
     audioUrl := VNull;
     sunoJobId := nullish_or jobId VNull;
     createdAt := now |}.

Lemma generate_song_eq (completion : outcome ChatCompletion)
  (fetched : outcome HttpResponse) (uuid : jsstring) (now : Z)
  (req_body : value) (st : State) :
  generate_song completion fetched uuid now req_body st =
  match safeParse req_body with
  | None => (respond 400 JsonInvalidRequest, st)
  | Some data =>
  match generation_outcome completion with
  | Throw e =>
      (respond 500 (JsonMessage (message_or e (str "Failed to generate song"))),
       called CallTextGeneration st)
  | Ok generated =>
  match obind fetched job_id_of_response with
  | Throw e =>
      (respond 500 (JsonMessage (message_or e (str "Failed to generate song"))),
       called CallSunoGenerate (called CallTextGeneration st))
  | Ok jobId =>
      let song := generated_song generated data jobId uuid now in
      (respond 201 (JsonSong song),
       {| songs := JsMap.set (songs st) uuid song;
          calls := calls (called CallSunoGenerate (called CallTextGeneration st)) |})
  end end end.
Proof.
  unfold generate_song, handle.
  destruct (safeParse req_body) as [data|]; [|reflexivity].
  unfold bind at 1. rewrite generateSongWithAI_eq.
  destruct (generation_outcome completion) as [generated|e]; [|reflexivity].
  unfold bind at 1. rewrite generateMusicWithSuno_eq.
  destruct (obind fetched job_id_of_response) as [jobId|e]; reflexivity.
Qed.

(** The song [POST /api/songs] stores for the body [req_body]. *)
Definition saved_song (req_body : value) (uuid : jsstring) (now : Z) : Song :=
  {| id := uuid;
     title := get_opt req_body (str "title");
     topic := get_opt req_body (str "topic");
     lyrics := get_opt req_body (str "lyrics");
     rhythmPattern :=
       nullish_or (or_else (get_opt req_body (str "rhythmPattern")) VNull) VNull;
     culturalNotes :=
       nullish_or (or_else (get_opt req_body (str "culturalNotes")) VNull) VNull;
     musicalStyle :=
       nullish_or (or_else (get_opt req_body (str "musicalStyle")) VNull) VNull;
     sourceDocumentId :=
       nullish_or (or_else (get_opt req_body (str "sourceDocumentId")) VNull) VNull;
     sourceText :=
       nullish_or (or_else (get_opt req_body (str "sourceText")) VNull) VNull;
     audioUrl := VNull;
     sunoJobId := VNull;
     createdAt := now |}.

Lemma save_song_eq (uuid : jsstring) (now : Z) (req_body : value) (st : State) :
  save_song uuid now req_body st =
  if is_nullish req_body
  then (respond 500 (JsonMessage (str "Failed to save song")), st)
  else
    let song := saved_song req_body uuid now in
    (respond 201 (JsonSong song),
     {| songs := JsMap.set (songs st) uuid song; calls := calls st |}).
Proof.
  unfold save_song, handle, bind, lift.
  destruct (is_nullish req_body) eqn:N.
  - destruct req_body; try discriminate; reflexivity.
  - rewrite !get_not_nullish by exact N. reflexivity.
Qed.

Lemma delete_song_songs (param_id : jsstring) (st : State) :
  songs (snd (delete_song param_id st)) = snd (JsMap.delete (songs st) param_id).
Proof.
  unfold delete_song, handle, bind, deleteSong, ret.
  destruct (JsMap.delete (songs st) param_id) as [found m]. destruct found; reflexivity.
Qed.

(** ** An invariant of the store *)

(** The [audioUrl] of a song is [null] or a truthy value (a URL): nothing
    else is ever written. *)
Definition audio_ok (song : Song) : Prop :=
  audioUrl song = VNull \/ truthy (audioUrl song) = true.

Definition songs_ok (m : JsMap.t Song) : Prop :=
  forall song, In song (JsMap.values m) -> audio_ok song.

Lemma songs_ok_set (m : JsMap.t Song) (k : jsstring) (song : Song) :
  songs_ok m -> audio_ok song -> songs_ok (JsMap.set m k song).
Proof.
  intros Hm Hs x Hx. apply map_set_In in Hx as [->|Hx]; [assumption|now apply Hm].
Qed.

Lemma resolves_songs_ok (before after : JsMap.t Song) :
  resolves before after -> songs_ok before -> songs_ok after.
Proof.
  intros [->|(target & existing & url & G & T & ->)] Hok; [assumption|].
  apply songs_ok_set; [assumption|]. now right.
Qed.

Lemma serve_songs_ok (r : request) (st : State) :
  songs_ok (songs st) -> songs_ok (songs (snd (serve r st))).
Proof.
  intros Hok. destruct r as [completion fetched uuid now body | uuid now body
                            | body | axios_get param_id | param_id]; simpl.
  - rewrite generate_song_eq.
    destruct (safeParse body) as [data|]; [|assumption].
    destruct (generation_outcome completion) as [g|]; [|assumption].
    destruct (obind fetched job_id_of_response) as [jobId|]; [|assumption].
    simpl. apply songs_ok_set; [assumption|now left].
  - rewrite save_song_eq. destruct (is_nullish body); [assumption|].
    simpl. apply songs_ok_set; [assumption|now left].
  - apply resolves_songs_ok with (songs st);
      [apply suno_callback_resolves | assumption].
  - apply resolves_songs_ok with (songs st);
      [apply poll_audio_resolves | assumption].
  - rewrite delete_song_songs. intros x Hx. apply Hok.
    now apply map_delete_In with param_id.
Qed.

Lemma serve_all_songs_ok (rs : list request) (st : State) :
  songs_ok (songs st) -> songs_ok (songs (serve_all rs st)).
Proof.
  revert st. induction rs as [|r rs IH]; intros st Hok; simpl; [assumption|].
  apply IH. now apply serve_songs_ok.
Qed.

Lemma reachable_songs_ok (st : State) : reachable st -> songs_ok (songs st).
Proof.
  intros [rs <-]. apply serve_all_songs_ok. intros song [].
Qed.

(** In a reachable state an [audioUrl] that is not [null] is truthy. *)
Lemma reachable_audioUrl_truthy (st : State) (k : jsstring) (song : Song) :
  reachable st -> JsMap.get (songs st) k = Some song ->
  audioUrl song <> VNull -> truthy (audioUrl song) = true.
Proof.
  intros Hr G Hn.
  destruct (reachable_songs_ok Hr song (map_get_In _ _ G)); [contradiction|assumption].
Qed.

(** Every song is stored under its own [id]. *)
Definition keys_ok (m : JsMap.t Song) : Prop :=
  forall k song, In (k, song) m -> id song = k.

Lemma map_get_entry (V : Type) (m : JsMap.t V) (k : jsstring) (v : V) :
  JsMap.get m k = Some v -> In (k, v) m.
Proof.
  induction m as [|[k' v'] m IH]; simpl; [discriminate|].
  destruct (JsString.eqb k' k) eqn:E.
  - apply jsstring_eqb_eq in E. intros [= ->]. left. congruence.
  - intros H. right. now apply IH.
Qed.

Lemma map_set_entry (V : Type) (m : JsMap.t V) (k k' : jsstring) (v x : V) :
  In (k', x) (JsMap.set m k v) -> (k' = k /\ x = v) \/ In (k', x) m.
Proof.
  induction m as [|[k0 v0] m IH]; simpl.
  - intros [[= <- <-]|[]]. now left.
  - destruct (JsString.eqb k0 k) eqn:E; simpl.
    + apply jsstring_eqb_eq in E. subst k0.
      intros [[= <- <-]|H]; [now left | right; now right].
    + intros [H|H]; [right; now left|].
      destruct (IH H) as [?|?]; [now left | right; now right].
Qed.

Lemma map_delete_entry (V : Type) (m : JsMap.t V) (k : jsstring)
  (e : jsstring * V) :
  In e (snd (JsMap.delete m k)) -> In e m.
Proof.
  induction m as [|[k' v'] m IH]; simpl; [tauto|].
  destruct (JsString.eqb k' k); simpl.
  - now right.
  - destruct (JsMap.delete m k) as [found m'] eqn:D. simpl in *.
    intros [H|H]; [now left | right; now apply IH].
Qed.

Lemma keys_ok_set (m : JsMap.t Song) (k : jsstring) (song : Song) :
  keys_ok m -> id song = k -> keys_ok (JsMap.set m k song).
Proof.
  intros Hm Hs k' x Hx.
  apply map_set_entry in Hx as [[-> ->]|Hx]; [assumption|now apply Hm].
Qed.

Lemma resolves_keys_ok (before after : JsMap.t Song) :
  resolves before after -> keys_ok before -> keys_ok after.
Proof.
  intros [->|(target & existing & url & G & T & ->)] Hok; [assumption|].
  apply keys_ok_set; [assumption|]. simpl.
  apply Hok. now apply map_get_entry.
Qed.

Lemma serve_keys_ok (r : request) (st : State) :
  keys_ok (songs st) -> keys_ok (songs (snd (serve r st))).
Proof.
  intros Hok. destruct r as [completion fetched uuid now body | uuid now body
                            | body | axios_get param_id | param_id]; simpl.
  - rewrite generate_song_eq.
    destruct (safeParse body) as [data|]; [|assumption].
    destruct (generation_outcome completion) as [g|]; [|assumption].
    destruct (obind fetched job_id_of_response) as [jobId|]; [|assumption].
    simpl. now apply keys_ok_set.
  - rewrite save_song_eq. destruct (is_nullish body); [assumption|].
    simpl. now apply keys_ok_set.
  - apply resolves_keys_ok with (songs st);
      [apply suno_callback_resolves | assumption].
  - apply resolves_keys_ok with (songs st);
      [apply poll_audio_resolves | assumption].
  - rewrite delete_song_songs. intros k x Hx. apply Hok.
    now apply map_delete_entry with param_id.
Qed.

(** In a reachable state the song stored under [k] has the id [k]. *)
Lemma reachable_key_is_id (st : State) (k : jsstring) (song : Song) :
  reachable st -> JsMap.get (songs st) k = Some song -> id song = k.
Proof.
  intros [rs <-]. revert k song.
  enough (H : forall st0, keys_ok (songs st0) -> keys_ok (songs (serve_all rs st0))).
  { intros k song G. apply (H initial); [intros ? ? []|now apply map_get_entry]. }
  induction rs as [|r rs IH]; intros st0 Hok; simpl; [assumption|].
  apply IH. now apply serve_keys_ok.
Qed.

(** ** A sample run

    One song is generated, then its completion webhook arrives. *)

(** A text written with ['] where it has a double quote. *)
Definition json_text (s : string) : jsstring :=
  map (fun c => if (c =? 39)%N then 34%N else c) (str s).

(** The model's answer with the text [text]. *)
Definition answer_with (text : jsstring) : outcome ChatCompletion :=
  Ok [ {| message := Some {| msg_content := Some text |} |} ].

Definition sample_request : value :=
  VObject [ (str "content", VString (str "The water cycle: rain and rivers")) ].

Definition sample_completion : outcome ChatCompletion :=
  answer_with (json_text "{'title':'Rain Song','lyrics':'Rain de fall'}").

Definition sample_submission : outcome HttpResponse :=
  Ok {| ok := true;
        body_text := json_text "{'code':200,'data':{'taskId':'job-1'}}" |}.

(** The webhook payload [{data: {task_id, callbackType: "complete",
    data: [{audio_url}]}}]. *)
Definition completion_payload (task_id audio_url : value) : value :=
  VObject [ (str "data",
             VObject [ (str "task_id", task_id);
                       (str "callbackType", VString (str "complete"));
                       (str "data",
                        VArray [ VObject [ (str "audio_url", audio_url) ] ]) ]) ].

Definition sample_generate : request :=
  Generate sample_completion sample_submission (str "song-1") 1000 sample_request.

Definition sample_callback : request :=
  Callback (completion_payload (VString (str "job-1"))
              (VString (str "https://cdn.example/a.mp3"))).

(** The song once generated. *)
Definition pending_song : Song :=
  {| id := str "song-1";
     title := VString (str "Rain Song");
     topic := VString (str "General");
     lyrics := VString (str "Rain de fall");
     rhythmPattern := VString [];
     culturalNotes := VString [];
     musicalStyle := VString (str "traditional");
     sourceDocumentId := VNull;
     sourceText := VString (str "The water cycle: rain and rivers");
     audioUrl := VNull;
     sunoJobId := VString (str "job-1");
     createdAt := 1000 |}.

Definition pending_state : State :=
  {| songs := [ (str "song-1", pending_song) ];
     calls := [ CallTextGeneration; CallSunoGenerate ] |}.

Definition resolved_song : Song :=
  with_audioUrl (VString (str "https://cdn.example/a.mp3")) pending_song.

Definition resolved_state : State :=
  {| songs := [ (str "song-1", resolved_song) ];
     calls := [ CallTextGeneration; CallSunoGenerate ] |}.


Lemma resolved_state_run :
  serve_all [sample_generate; sample_callback] initial = resolved_state.
Proof. vm_compute. reflexivity. Qed.

Lemma resolved_state_reachable : reachable resolved_state.
Proof. exists [sample_generate; sample_callback]. exact resolved_state_run. Defined.

(** A provider that does not know the job yet. *)
Definition provider_not_found (jobId : value) : outcome value :=
  Throw (JsError (str "Request failed with status code 404")).

(** ** Polling *)

(** C10. Polling an id under which no song is stored answers
    [{status: "running"}] with status 200: neither a not-found answer nor an
    error.  The store is left as it is and the provider is not queried. *)
Theorem poll_missing_song_running (axios_get : value -> outcome value)
  (param_id : jsstring) (st : State) :
  JsMap.get (songs st) param_id = None ->
  poll_audio axios_get param_id st = (respond 200 JsonRunning, st).
Proof. intros G. rewrite poll_audio_eq, G. reflexivity. Qed.

(** C8. For a stored song whose [audioUrl] is not [null], the poll answers
    [{status: "success", audioUrl}] with the stored URL, queries no external
    service (the recorded calls do not change) and leaves the store as it
    is. *)
Theorem poll_resolved_short_circuit (axios_get : value -> outcome value)
  (param_id : jsstring) (st : State) (song : Song) :
  reachable st ->
  JsMap.get (songs st) param_id = Some song ->
  audioUrl song <> VNull ->
  poll_audio axios_get param_id st =
    (respond 200 (JsonSuccess (audioUrl song)), st)
  /\ calls (snd (poll_audio axios_get param_id st)) = calls st
  /\ songs (snd (poll_audio axios_get param_id st)) = songs st.
Proof.
  intros Hr G Hn. rewrite poll_audio_eq, G.
  assert (T : truthy (audioUrl song) = true)
    by (eapply reachable_audioUrl_truthy; eassumption).
  rewrite T. repeat split.
Qed.

(** C6. For a stored song with a job id and a [null] [audioUrl], when the
    status query to the provider throws, whatever it throws, the poll answers
    [{status: "running"}] with status 200 and the songs are left as they
    are. *)
Theorem poll_swallows_provider_errors (axios_get : value -> outcome value)
  (param_id : jsstring) (st : State) (song : Song) (e : exn) :
  JsMap.get (songs st) param_id = Some song ->
  audioUrl song = VNull ->
  sunoJobId song <> VNull ->
  axios_get (sunoJobId song) = Throw e ->
  fst (poll_audio axios_get param_id st) = respond 200 JsonRunning
  /\ songs (snd (poll_audio axios_get param_id st)) = songs st.
Proof.
  intros G Ha Hj He. rewrite poll_audio_eq, G, Ha. simpl.
  destruct (truthy (sunoJobId song)); simpl; [|now split].
  rewrite He. simpl. now split.
Qed.

(** Whatever the store, the id and the provider's behaviour, the poll answers
    with status 200 and one of its two bodies. *)
Lemma poll_audio_never_fails (axios_get : value -> outcome value)
  (param_id : jsstring) (st : State) :
  status (fst (poll_audio axios_get param_id st)) = 200
  /\ (payload (fst (poll_audio axios_get param_id st)) = JsonRunning
      \/ exists url, payload (fst (poll_audio axios_get param_id st))
                     = JsonSuccess url).
Proof.
  rewrite poll_audio_eq.
  destruct (JsMap.get (songs st) param_id) as [song|]; [|simpl; auto].
  destruct (truthy (audioUrl song)); [simpl; eauto|].
  destruct (negb (truthy (sunoJobId song))); [simpl; auto|].
  destruct (obind _ _) as [[url|]|]; simpl; eauto.
Qed.

Lemma poll_missing_song_running_witness :
  poll_audio provider_not_found (str "song-2") pending_state
  = (respond 200 JsonRunning, pending_state).
Proof. apply poll_missing_song_running. reflexivity. Defined.

Lemma poll_resolved_short_circuit_witness :
  poll_audio provider_not_found (str "song-1") resolved_state
  = (respond 200 (JsonSuccess (VString (str "https://cdn.example/a.mp3"))),
     resolved_state)
  /\ calls (snd (poll_audio provider_not_found (str "song-1") resolved_state))
     = calls resolved_state
  /\ songs (snd (poll_audio provider_not_found (str "song-1") resolved_state))
     = songs resolved_state.
Proof.
  apply (@poll_resolved_short_circuit provider_not_found (str "song-1")
           resolved_state resolved_song).
  - exact resolved_state_reachable.
  - reflexivity.
  - discriminate.
Defined.

Lemma poll_swallows_provider_errors_witness :
  fst (poll_audio provider_not_found (str "song-1") pending_state)
  = respond 200 JsonRunning
  /\ songs (snd (poll_audio provider_not_found (str "song-1") pending_state))
     = songs pending_state.
Proof.
  apply (@poll_swallows_provider_errors provider_not_found (str "song-1")
           pending_state pending_song
           (JsError (str "Request failed with status code 404"))).
  - reflexivity.
  - reflexivity.
  - discriminate.
  - reflexivity.
Defined.

(** ** Normalising the provider's answer *)

(** The provider's answer [{data: {data: [{audio_url}], callbackType}}]. *)
Definition status_answer (audio_url callbackType : value) : value :=
  VObject [ (str "data",
             VObject [ (str "data",
                        VArray [ VObject [ (str "audio_url", audio_url) ] ]);
                       (str "callbackType", callbackType) ]) ].

(** [sunoData.data || sunoData]: the task data under its optional wrapping. *)
Definition task_data (sunoData : value) : outcome value :=
  inner <~ get sunoData (str "data") ;;
  Ok (or_else inner sunoData).

(** The usable audio URL a value carries in its [audio_url] field, if any. *)
Definition url_field (v : value) : option value :=
  if truthy (get_opt v (str "audio_url"))
  then Some (get_opt v (str "audio_url"))
  else None.

(** The first element of a sequence. *)
Definition first_of_sequence (v : value) : option value :=
  match v with
  | VArray (first :: _) => Some first
  | _ => None
  end.

(** The normalised audio URL as the specification words it: the first
    element of the sequence field, then the bare object field, then the
    top-level field; [null] when none carries a URL. *)
Definition normalized_audio_url (taskData : value) : value :=
  let field := get_opt taskData (str "data") in
  let in_sequence :=
    match first_of_sequence field with
    | Some first => url_field first
    | None => None
    end in
  match in_sequence with
  | Some url => url
  | None =>
      match url_field field with
      | Some url => url
      | None =>
          match url_field taskData with
          | Some url => url
          | None => VNull
          end
      end
  end.

Lemma strict_eq_string (v : value) (s : jsstring) :
  strict_eq v (VString s) = true <-> v = VString s.
Proof.
  destruct v; simpl; split; try congruence.
  - intros H. apply jsstring_eqb_eq in H. congruence.
  - intros [= ->]. apply jsstring_eqb_refl.
Qed.

Lemma strict_eq_string_neq (v : value) (s : jsstring) :
  v <> VString s -> strict_eq v (VString s) = false.
Proof.
  intros H. destruct (strict_eq v (VString s)) eqn:E; [|reflexivity].
  apply strict_eq_string in E. contradiction.
Qed.

(** The [if] / [else if] chain of the handler computes the normalised URL of
    the specification. *)
Lemma normalize_audio_url_spec (taskData : value) :
  is_nullish taskData = false ->
  normalize_audio_url taskData (get_opt taskData (str "data"))
  = Ok (normalized_audio_url taskData).
Proof.
  intros N. unfold normalize_audio_url, normalized_audio_url, url_field, obind.
  rewrite (get_not_nullish taskData (str "audio_url") N).
  destruct (get_opt taskData (str "data")) as [| |b|n|s|elems|props] eqn:F;
    simpl; try (destruct (truthy (get_opt taskData (str "audio_url"))); reflexivity).
  - destruct elems as [|first elems]; simpl.
    + destruct (truthy (get_opt taskData (str "audio_url"))); reflexivity.
    + destruct (truthy (get_opt first (str "audio_url"))) eqn:T.
      * destruct first; simpl in T; try discriminate. reflexivity.
      * destruct (truthy (get_opt taskData (str "audio_url"))); reflexivity.
  - destruct (truthy (own_prop props (str "audio_url"))); [reflexivity|].
    destruct (truthy (get_opt taskData (str "audio_url"))); reflexivity.
Qed.

Lemma task_data_not_nullish (sunoData taskData : value) :
  task_data sunoData = Ok taskData -> is_nullish taskData = false.
Proof.
  unfold task_data, obind, or_else.
  destruct (get sunoData (str "data")) as [inner|] eqn:G; [|discriminate].
  apply get_ok_not_nullish in G as [N _].
  destruct (truthy inner) eqn:T; intros [= <-];
    [now apply truthy_not_nullish | assumption].
Qed.

(** Completion is recognised exactly when the task data has the completion
    marker and a normalised URL. *)
Lemma poll_decision_spec (sunoData taskData : value) :
  task_data sunoData = Ok taskData ->
  poll_decision sunoData =
  Ok (if strict_eq (get_opt taskData (str "callbackType")) (VString (str "complete"))
         && truthy (normalized_audio_url taskData)
      then Some (normalized_audio_url taskData)
      else None).
Proof.
  intros H. pose proof (task_data_not_nullish _ H) as N.
  unfold poll_decision. unfold task_data in H. unfold obind in *.
  destruct (get sunoData (str "data")) as [inner|]; [|discriminate].
  injection H as H. rewrite H.
  rewrite (get_not_nullish taskData (str "data") N).
  rewrite (normalize_audio_url_spec taskData N).
  rewrite (get_not_nullish taskData (str "callbackType") N).
  destruct (strict_eq _ _ && truthy _); reflexivity.
Qed.

(** C2. For a stored song with a job id (a truthy one: the handler takes an
    empty job id for none) and a [null] [audioUrl]:
    - when the status query answers
      [{data: {data: [{audio_url: X}], callbackType: "complete"}}] with a URL
      [X] (a non-empty string), the poll stores [X] as the song's [audioUrl]
      and answers [{status: "success", audioUrl: X}];
    - when it answers the same shape with any other [callbackType], the poll
      answers [{status: "running"}] and stores nothing;
    - whatever the answer, completion is recognised exactly when the task data
      (the answer, unwrapped from its optional [data] level) has the
      completion marker and a normalised URL: a marker without a URL, or a
      URL without the marker, is [{status: "running"}];
    - the URL the handler finds is the normalised URL of the specification:
      first element of the sequence field, then the bare object field, then
      the top-level field. *)
Theorem poll_normalization_and_completion (axios_get : value -> outcome value)
  (param_id : jsstring) (st : State) (song : Song) :
  JsMap.get (songs st) param_id = Some song ->
  audioUrl song = VNull ->
  truthy (sunoJobId song) = true ->
  (forall X : jsstring,
      X <> [] ->
      axios_get (sunoJobId song)
      = Ok (status_answer (VString X) (VString (str "complete"))) ->
      poll_audio axios_get param_id st
      = (respond 200 (JsonSuccess (VString X)),
         {| songs := JsMap.set (songs st) param_id (with_audioUrl (VString X) song);
            calls := calls st ++ [CallSunoDetails (sunoJobId song)] |}))
  /\ (forall (X : jsstring) (c : value),
         c <> VString (str "complete") ->
         axios_get (sunoJobId song) = Ok (status_answer (VString X) c) ->
         poll_audio axios_get param_id st
         = (respond 200 JsonRunning, queried (sunoJobId song) st))
  /\ (forall sunoData taskData : value,
         axios_get (sunoJobId song) = Ok sunoData ->
         task_data sunoData = Ok taskData ->
         poll_audio axios_get param_id st
         = if strict_eq (get_opt taskData (str "callbackType"))
                (VString (str "complete"))
              && truthy (normalized_audio_url taskData)
           then (respond 200 (JsonSuccess (normalized_audio_url taskData)),
                 {| songs := JsMap.set (songs st) param_id
                               (with_audioUrl (normalized_audio_url taskData) song);
                    calls := calls st ++ [CallSunoDetails (sunoJobId song)] |})
           else (respond 200 JsonRunning, queried (sunoJobId song) st))
  /\ (forall taskData : value,
         is_nullish taskData = false ->
         normalize_audio_url taskData (get_opt taskData (str "data"))
         = Ok (normalized_audio_url taskData)).
Proof.
  intros G Ha Hj.
  assert (General : forall sunoData taskData : value,
             axios_get (sunoJobId song) = Ok sunoData ->
             task_data sunoData = Ok taskData ->
             poll_audio axios_get param_id st
             = if strict_eq (get_opt taskData (str "callbackType"))
                    (VString (str "complete"))
                  && truthy (normalized_audio_url taskData)
               then (respond 200 (JsonSuccess (normalized_audio_url taskData)),
                     {| songs := JsMap.set (songs st) param_id
                                   (with_audioUrl (normalized_audio_url taskData) song);
                        calls := calls st ++ [CallSunoDetails (sunoJobId song)] |})
               else (respond 200 JsonRunning, queried (sunoJobId song) st)).
  { intros sunoData taskData Hget Htask.
    rewrite poll_audio_eq, G, Ha, Hj, Hget. simpl.
    rewrite (poll_decision_spec _ Htask).
    destruct (strict_eq _ _ && truthy _); reflexivity. }
  repeat split.
  - intros X HX Hget.
    rewrite (General _ (VObject [ (str "data",
                                   VArray [ VObject [ (str "audio_url", VString X) ] ]);
                                  (str "callbackType", VString (str "complete")) ])
               Hget eq_refl).
    destruct X; [contradiction|reflexivity].
  - intros X c Hc Hget.
    rewrite (General _ (VObject [ (str "data",
                                   VArray [ VObject [ (str "audio_url", VString X) ] ]);
                                  (str "callbackType", c) ])
               Hget eq_refl).
    change (get_opt _ (str "callbackType")) with c.
    rewrite (strict_eq_string_neq Hc). reflexivity.
  - exact General.
  - apply normalize_audio_url_spec.
Qed.

(** A provider that reports the job complete with [url]. *)
Definition provider_complete (url : jsstring) (jobId : value) : outcome value :=
  Ok (status_answer (VString url) (VString (str "complete"))).

Lemma poll_normalization_and_completion_witness :
  poll_audio (provider_complete (str "X")) (str "song-1") pending_state
  = (respond 200 (JsonSuccess (VString (str "X"))),
     {| songs := [ (str "song-1", with_audioUrl (VString (str "X")) pending_song) ];
        calls := [ CallTextGeneration; CallSunoGenerate;
                   CallSunoDetails (VString (str "job-1")) ] |}).
Proof.
  refine (proj1 (@poll_normalization_and_completion (provider_complete (str "X"))
                   (str "song-1") pending_state pending_song
                   eq_refl eq_refl eq_refl) (str "X") _ eq_refl).
  discriminate.
Defined.

(** ** What a resolution writes *)

(** [after] holds the same ids as [before], in the same order; the song under
    each id differs at most in its [audioUrl]; and all ids but one hold the
    very song they held. *)
Definition writes_only_audioUrl (before after : JsMap.t Song) : Prop :=
  map fst after = map fst before
  /\ (forall k song,
         JsMap.get before k = Some song ->
         exists song',
           JsMap.get after k = Some song' /\ same_except_audioUrl song song')
  /\ (exists target, forall k, k <> target -> JsMap.get after k = JsMap.get before k).

Lemma resolves_writes_only_audioUrl (before after : JsMap.t Song) :
  resolves before after -> writes_only_audioUrl before after.
Proof.
  intros [->|(target & existing & url & G & _ & ->)].
  - split; [reflexivity|]. split.
    + intros k song H. exists song. split; [assumption|apply same_except_audioUrl_refl].
    + exists []. reflexivity.
  - split; [now apply map_set_keys with existing|]. split.
    + intros k song H. destruct (JsString.eqb k target) eqn:E.
      * apply jsstring_eqb_eq in E. subst k.
        rewrite map_get_set_same. exists (with_audioUrl url existing).
        split; [reflexivity|].
        replace song with existing by congruence.
        apply same_except_audioUrl_with.
      * apply jsstring_eqb_false in E. rewrite map_get_set_other by assumption.
        exists song. split; [assumption|apply same_except_audioUrl_refl].
    + exists target. intros k Hk. now apply map_get_set_other.
Qed.

(** C9. Whatever the webhook handler and the poll handler are given, the
    songs they leave differ from the songs they found at most in the
    [audioUrl] of one song: [id], [title], [topic], [lyrics],
    [rhythmPattern], [culturalNotes], [musicalStyle], [sourceDocumentId],
    [sourceText], [sunoJobId] (the job id) and [createdAt] of every song are
    unchanged, no song is added or removed, and the songs under all other
    ids are unchanged (by [reachable_key_is_id] the id a song is stored
    under is its own [id]). *)
Theorem resolution_writes_only_audioUrl :
  (forall (req_body : value) (st : State),
      writes_only_audioUrl (songs st) (songs (snd (suno_callback req_body st))))
  /\ (forall (axios_get : value -> outcome value) (param_id : jsstring) (st : State),
         writes_only_audioUrl (songs st)
           (songs (snd (poll_audio axios_get param_id st)))).
Proof.
  split; intros; apply resolves_writes_only_audioUrl;
    [apply suno_callback_resolves | apply poll_audio_resolves].
Qed.

(** ** Delivering a webhook *)








(** ** Creating a song *)

(** C4, as the code has it.  [POST /api/songs/generate] either fails
    without storing a song, or stores one song whose [audioUrl] is [null]
    and whose job id is the task id the provider answered with, a non-null
    one whenever the provider's answer carries a task id; when the text
    generation or the job submission fails, no song is stored.
    [POST /api/songs] either fails without storing a song, or stores one
    whose [audioUrl] is [null] and whose job id is [null] as well: it
    submits no job. *)
Theorem creation_invariant :
  (forall (completion : outcome ChatCompletion) (fetched : outcome HttpResponse)
          (uuid : jsstring) (now : Z) (req_body : value) (st : State),
      let result := generate_song completion fetched uuid now req_body st in
      (status (fst result) <> 201 /\ songs (snd result) = songs st)
      \/ (exists (song : Song) (jobId : value),
             obind fetched job_id_of_response = Ok jobId
             /\ fst result = respond 201 (JsonSong song)
             /\ songs (snd result) = JsMap.set (songs st) uuid song
             /\ id song = uuid
             /\ audioUrl song = VNull
             /\ (is_nullish jobId = false ->
                 sunoJobId song = jobId /\ sunoJobId song <> VNull)))
  /\ (forall (completion : outcome ChatCompletion) (fetched : outcome HttpResponse)
             (uuid : jsstring) (now : Z) (req_body : value) (st : State) (e : exn),
         let result := generate_song completion fetched uuid now req_body st in
         generation_outcome completion = Throw e
         \/ obind fetched job_id_of_response = Throw e ->
         status (fst result) <> 201 /\ songs (snd result) = songs st)
  /\ (forall (uuid : jsstring) (now : Z) (req_body : value) (st : State),
         let result := save_song uuid now req_body st in
         (status (fst result) <> 201 /\ songs (snd result) = songs st)
         \/ (exists song : Song,
                fst result = respond 201 (JsonSong song)
                /\ songs (snd result) = JsMap.set (songs st) uuid song
                /\ id song = uuid
                /\ audioUrl song = VNull
                /\ sunoJobId song = VNull)).
Proof.
  split; [|split].
  - intros completion fetched uuid now req_body st. simpl.
    rewrite generate_song_eq.
    destruct (safeParse req_body) as [data|]; [|left; split; [discriminate|reflexivity]].
    destruct (generation_outcome completion) as [generated|];
      [|left; split; [discriminate|reflexivity]].
    destruct (obind fetched job_id_of_response) as [jobId|];
      [|left; split; [discriminate|reflexivity]].
    right. exists (generated_song generated data jobId uuid now), jobId.
    repeat split; simpl; destruct jobId; simpl in *; congruence.
  - intros completion fetched uuid now req_body st e. simpl.
    rewrite generate_song_eq. intros H.
    destruct (safeParse req_body) as [data|]; [|split; [discriminate|reflexivity]].
    destruct (generation_outcome completion) as [generated|];
      [|split; [discriminate|reflexivity]].
    destruct H as [H|H]; [discriminate|]. rewrite H.
    split; [discriminate|reflexivity].
  - intros uuid now req_body st. simpl. rewrite save_song_eq.
    destruct (is_nullish req_body); [left; split; [discriminate|reflexivity]|].
    right. exists (saved_song req_body uuid now). repeat split.
Qed.

(** A provider whose job-creation endpoint refuses the request. *)
Definition submission_refused : outcome HttpResponse :=
  Ok {| ok := false; body_text := str "quota exceeded" |}.

Lemma creation_invariant_witness :
  let result :=
    generate_song sample_completion submission_refused (str "song-1") 1000
      sample_request initial in
  status (fst result) <> 201 /\ songs (snd result) = songs initial.
Proof.
  refine (proj1 (proj2 creation_invariant) sample_completion submission_refused
            (str "song-1") 1000%Z sample_request initial
            (JsError (str "Suno API error: quota exceeded")) _).
  right. reflexivity.
Defined.

(** C4, as stated, fails: [POST /api/songs] with a title, a topic and lyrics
    answers 201 and stores a song whose job id is [null]. *)
Lemma saved_song_has_no_job_id :
  let result :=
    save_song (str "song-2") 2000
      (VObject [ (str "title", VString (str "Rain Song"));
                 (str "topic", VString (str "Water"));
                 (str "lyrics", VString (str "Rain de fall")) ])
      initial in
  status (fst result) = 201
  /\ option_map sunoJobId (JsMap.get (songs (snd result)) (str "song-2"))
     = Some VNull
  /\ option_map audioUrl (JsMap.get (songs (snd result)) (str "song-2"))
     = Some VNull.
Proof. vm_compute. repeat split. Qed.

(** ** Generating lyrics *)

Lemma trim_not_empty (text : jsstring) :
  JsString.trim text <> [] ->
  text <> [] /\ JsString.is_empty (JsString.trim text) = false.
Proof.
  intros H. split.
  - intros ->. now apply H.
  - destruct (JsString.trim text); [contradiction|reflexivity].
Qed.

(** The field [k] of a parsed object when it is truthy, [dflt] otherwise: what
    [parsed.k || dflt] is. *)
Definition field_or_default (props : list (jsstring * value)) (k : jsstring)
  (dflt : value) : value :=
  if truthy (own_prop props k) then own_prop props k else dflt.

(** The result for an answer that is not JSON. *)
Definition raw_text_song (text : jsstring) : Generated :=
  {| gen_title := VString (str "Untitled Song");
     gen_topic := VString (str "General");
     gen_lyrics := VString text;
     gen_rhythmPattern := VString [];
     gen_culturalNotes := VString [] |}.

Lemma song_of_unparseable_text (text : jsstring) :
  JsString.trim text <> [] ->
  Json.parse (clean_json text) = None ->
  song_of_text text = Ok (raw_text_song text).
Proof.
  intros Ht Hp. destruct (trim_not_empty text Ht) as [Hne He].
  unfold song_of_text. rewrite He, Hp.
  destruct text; [contradiction|reflexivity].
Qed.

Lemma song_of_object_text (text : jsstring) (props : list (jsstring * value)) :
  JsString.trim text <> [] ->
  Json.parse (clean_json text) = Some (VObject props) ->
  song_of_text text =
  Ok {| gen_title := field_or_default props (str "title") (VString (str "Untitled Song"));
        gen_topic := field_or_default props (str "topic") (VString (str "General"));
        gen_lyrics := field_or_default props (str "lyrics") (VString []);
        gen_rhythmPattern := field_or_default props (str "rhythmPattern") (VString []);
        gen_culturalNotes := field_or_default props (str "culturalNotes") (VString []) |}.
Proof.
  intros Ht Hp. destruct (trim_not_empty text Ht) as [_ He].
  unfold song_of_text. rewrite He, Hp. reflexivity.
Qed.

(** C5, as the code has it.  For an answer of the text-generation service
    whose text is not blank (it has a code unit that [trim] keeps) and is not
    JSON once the code fences are stripped, the generator succeeds with the
    raw text as [lyrics], "Untitled Song" as [title], "General" as [topic]
    and empty [rhythmPattern] and [culturalNotes].  For a text that parses to
    a JSON object, each field that is absent or falsy (empty string, [null],
    [0], [false]) takes its default, and each truthy field is kept. *)
Theorem generation_fallbacks :
  (forall (response : ChatCompletion) (st : State),
      let text := completion_text response in
      JsString.trim text <> [] ->
      Json.parse (clean_json text) = None ->
      generateSongWithAI (Ok response) st
      = (Ok {| gen_title := VString (str "Untitled Song");
               gen_topic := VString (str "General");
               gen_lyrics := VString text;
               gen_rhythmPattern := VString [];
               gen_culturalNotes := VString [] |},
         called CallTextGeneration st))
  /\ (forall (response : ChatCompletion) (st : State)
             (props : list (jsstring * value)),
         let text := completion_text response in
         let field k dflt :=
           if truthy (own_prop props (str k)) then own_prop props (str k)
           else VString (str dflt) in
         JsString.trim text <> [] ->
         Json.parse (clean_json text) = Some (VObject props) ->
         generateSongWithAI (Ok response) st
         = (Ok {| gen_title := field "title" "Untitled Song";
                  gen_topic := field "topic" "General";
                  gen_lyrics := field "lyrics" "";
                  gen_rhythmPattern := field "rhythmPattern" "";
                  gen_culturalNotes := field "culturalNotes" "" |},
            called CallTextGeneration st)).
Proof.
  split.
  - intros response st text Ht Hp.
    rewrite generateSongWithAI_eq. unfold generation_outcome. simpl obind.
    fold text. now rewrite (song_of_unparseable_text text Ht Hp).
  - intros response st props text field Ht Hp.
    rewrite generateSongWithAI_eq. unfold generation_outcome. simpl obind.
    fold text. now rewrite (song_of_object_text text Ht Hp).
Qed.

Lemma generation_fallbacks_witness :
  generateSongWithAI (answer_with (str "Rain de fall, pikin dem sing")) initial
  = (Ok (raw_text_song (str "Rain de fall, pikin dem sing")),
     called CallTextGeneration initial).
Proof.
  refine (proj1 generation_fallbacks
            [ {| message :=
                   Some {| msg_content := Some (str "Rain de fall, pikin dem sing") |} |} ]
            initial _ _).
  - discriminate.
  - reflexivity.
Defined.

(** What [generateSongWithAI] resolves to, if it does. *)
Definition resolved (o : outcome Generated) : option Generated :=
  match o with
  | Ok g => Some g
  | Throw _ => None
  end.

(** C5, as stated, fails twice.  The answer made of one space is not empty
    and is not JSON, yet the [lyrics] of the result are empty, not the raw
    text.  In the answer [titled], a JSON object whose [title] is the empty
    string and whose [lyrics] are not, the field [title] is present, yet the
    result has the default title. *)
Lemma blank_text_and_falsy_field_take_defaults :
  let blank := str " " in
  let titled := json_text "{'title':'','lyrics':'Rain de fall'}" in
  (blank <> []
   /\ Json.parse (clean_json blank) = None
   /\ option_map gen_lyrics (resolved (generation_outcome (answer_with blank)))
      = Some (VString [])
   /\ VString [] <> VString blank)
  /\ (Json.parse (clean_json titled)
      = Some (VObject [ (str "title", VString []);
                        (str "lyrics", VString (str "Rain de fall")) ])
      /\ option_map gen_title (resolved (generation_outcome (answer_with titled)))
         = Some (VString (str "Untitled Song"))
      /\ VString (str "Untitled Song") <> VString []).
Proof.
  vm_compute. repeat split; discriminate.
Qed.

(** ** When generating lyrics fails *)

(** [JSON.parse] never yields [undefined]. *)
Lemma parse_step_defined (st st' : Json.parse_state) (t : Json.token) :
  Json.parse_step st t = Some st' ->
  match st' with
  | Json.PDone v _ => v <> VUndefined
  | _ => True
  end.
Proof.
  assert (Hstart : forall stack,
             Json.start_value t stack = Some st' ->
             match st' with Json.PDone v _ => v <> VUndefined | _ => True end).
  { intros stack. destruct t; simpl; intros [= <-]; try exact I; discriminate. }
  destruct st as [stack|stack|stack|acc stack|acc k stack|v [|[acc|acc k] stack]];
    simpl; try discriminate.
  - apply Hstart.
  - destruct t; try apply Hstart. intros [= <-]. discriminate.
  - destruct t; try discriminate; intros [= <-]; [discriminate|exact I].
  - destruct t; try discriminate; intros [= <-]; exact I.
  - destruct t; try discriminate; intros [= <-]; exact I.
  - destruct t; try discriminate; intros [= <-]; [discriminate|exact I].
  - destruct t; try discriminate; intros [= <-]; [discriminate|exact I].
Qed.

Lemma parse_tokens_defined (ts : list Json.token) (st : Json.parse_state) :
  match st with Json.PDone v _ => v <> VUndefined | _ => True end ->
  Json.parse_tokens ts st <> Some VUndefined.
Proof.
  revert st. induction ts as [|t ts IH]; intros st Hst; simpl.
  - destruct st as [| | | | |v [|]]; try discriminate. congruence.
  - destruct (Json.parse_step st t) as [st'|] eqn:E; [|discriminate].
    apply IH. now apply parse_step_defined with st t.
Qed.

Lemma parse_defined (text : jsstring) : Json.parse text <> Some VUndefined.
Proof.
  unfold Json.parse. destruct (Json.lex text Json.LIdle); [|discriminate].
  now apply parse_tokens_defined.
Qed.

(** Given an answer of the service, the generator fails exactly when the
    text is not blank and parses to [null]. *)
Lemma generation_fails_iff_null (response : ChatCompletion) :
  let text := completion_text response in
  (exists e, generation_outcome (Ok response) = Throw e)
  <-> (JsString.trim text <> [] /\ Json.parse (clean_json text) = Some VNull).
Proof.
  simpl. unfold generation_outcome. simpl obind. unfold song_of_text.
  set (text := completion_text response).
  destruct (JsString.trim text) eqn:T; simpl.
  - split; [intros [e [=]] | intros [H _]; now destruct H].
  - pose proof (parse_defined (clean_json text)) as D.
    destruct (Json.parse (clean_json text)) as [[| |b|x|s|elems|props]|];
      simpl.
    + congruence.
    + split; [intros _; split; [discriminate|reflexivity] | intros _; eauto].
    + split; [intros [e [=]] | intros [_ [=]]].
    + split; [intros [e [=]] | intros [_ [=]]].
    + split; [intros [e [=]] | intros [_ [=]]].
    + split; [intros [e [=]] | intros [_ [=]]].
    + split; [intros [e [=]] | intros [_ [=]]].
    + split; [intros [e [=]] | intros [_ [=]]].
Qed.

(** When the call to the service fails, so does the generator. *)
Lemma generation_fails_with_the_call (e : exn) (st : State) :
  generateSongWithAI (Throw e) st
  = (Throw (JsError (message_or e (str "Failed to generate song"))),
     called CallTextGeneration st).
Proof. now rewrite generateSongWithAI_eq. Qed.

(** An empty or blank answer gives the placeholder song. *)
Lemma generation_placeholder_on_blank (response : ChatCompletion) (st : State) :
  JsString.trim (completion_text response) = [] ->
  generateSongWithAI (Ok response) st
  = (Ok placeholder_song, called CallTextGeneration st).
Proof.
  intros H. rewrite generateSongWithAI_eq.
  unfold generation_outcome. simpl obind. unfold song_of_text. now rewrite H.
Qed.

(** C7. The generator is meant to fail only when the call to the
    text-generation service fails, and never because of what the answer
    says.  It does fail on the answer [null]: the text is valid JSON, the
    parsed value is [null], and reading [parsed.title] throws a [TypeError]
    that the outer [catch] turns into the generator's error; the route then
    answers 500 and stores no song. *)
Theorem generation_fails_on_null_answer :
  Json.parse (clean_json (str "null")) = Some VNull
  /\ generateSongWithAI (answer_with (str "null")) initial
     = (Throw (JsError (str "Cannot read properties of null (reading 'title')")),
        called CallTextGeneration initial)
  /\ generate_song (answer_with (str "null")) sample_submission (str "song-1")
       1000 sample_request initial
     = (respond 500
          (JsonMessage (str "Cannot read properties of null (reading 'title')")),
        called CallTextGeneration initial).
Proof. vm_compute. repeat split. Qed.

(** * The rest of the server

    The routes and storage operations around the resolution workflow: reading
    and deleting songs, the documents, and what the handlers do on their
    error paths. *)

From Stdlib Require Import Permutation Sorted.

(** ** Sorting newest first *)

Section SortDesc.

Variable A : Type.
Variable key : A -> Z.

(** Insertion of [x], which stood before all of [l], into [l] sorted by [key]
    descending. *)
Fixpoint insert_desc (x : A) (l : list A) : list A :=
  match l with
  | [] => [x]
  | y :: l' => if (key x <? key y)%Z then y :: insert_desc x l' else x :: l
  end.

(** [l.sort((a, b) => key(b) - key(a))]: the stable sort, largest key first. *)
Definition sort_desc (l : list A) : list A := fold_right insert_desc [] l.

Lemma insert_desc_perm x l : Permutation (insert_desc x l) (x :: l).
Proof.
  induction l as [|y l IH]; simpl; [reflexivity|].
  destruct (key x <? key y)%Z; [|reflexivity].
  rewrite IH. apply perm_swap.
Qed.

Lemma sort_desc_perm l : Permutation (sort_desc l) l.
Proof.
  induction l as [|x l IH]; simpl; [reflexivity|].
  rewrite insert_desc_perm. now constructor.
Qed.

Definition desc (a b : A) : Prop := (key b <= key a)%Z.

Lemma insert_desc_sorted x l :
  StronglySorted desc l -> StronglySorted desc (insert_desc x l).
Proof.
  induction 1 as [|y l Hs IH Hy]; simpl.
  - repeat constructor.
  - destruct (key x <? key y)%Z eqn:E.
    + apply Z.ltb_lt in E. constructor; [assumption|].
      apply Forall_forall. intros z Hz.
      apply (Permutation_in _ (insert_desc_perm x l)) in Hz as [<-|Hz].
      * unfold desc. lia.
      * revert z Hz. now apply Forall_forall.
    + apply Z.ltb_ge in E. constructor; [now constructor|].
      constructor; [exact E|].
      apply Forall_forall. intros z Hz.
      assert (desc y z) by (revert z Hz; now apply Forall_forall).
      unfold desc in *. lia.
Qed.

Lemma sort_desc_sorted l : StronglySorted desc (sort_desc l).
Proof.
  induction l; simpl; [constructor|]. now apply insert_desc_sorted.
Qed.

(** The elements with one key keep the order they had. *)
Lemma insert_desc_stable (t : Z) x l :
  filter (fun a => key a =? t)%Z (insert_desc x l)
  = filter (fun a => key a =? t)%Z (x :: l).
Proof.
  induction l as [|y l IH]; simpl; [reflexivity|].
  destruct (key x <? key y)%Z eqn:E; [|reflexivity].
  simpl. rewrite IH. simpl. apply Z.ltb_lt in E.
  destruct (key x =? t)%Z eqn:Ex; [|reflexivity].
  apply Z.eqb_eq in Ex.
  destruct (key y =? t)%Z eqn:Ey; [|reflexivity].
  apply Z.eqb_eq in Ey. lia.
Qed.

Lemma sort_desc_stable (t : Z) l :
  filter (fun a => key a =? t)%Z (sort_desc l) = filter (fun a => key a =? t)%Z l.
Proof.
  induction l as [|x l IH]; simpl; [reflexivity|].
  rewrite insert_desc_stable. simpl. now rewrite IH.
Qed.


End SortDesc.

Lemma sort_newest_first_desc (l : list Song) :
  sort_newest_first l = sort_desc createdAt l.
Proof.
  unfold sort_newest_first, sort_desc. induction l as [|x l IH]; simpl; [reflexivity|].
  rewrite IH. generalize (fold_right (insert_desc createdAt) [] l).
  intros m. induction m as [|y m IHm]; simpl; [reflexivity|].
  now rewrite IHm.
Qed.

(** ** Reading the songs ([GET /api/songs], [GET /api/songs/:id]) *)

(** [GET /api/songs]: the status and, on success, the array of songs. *)
Inductive listing (A : Type) : Type :=
| Listed (items : list A)          (* res.json(items) *)
| ListingFailed (message : jsstring).   (* res.status(500).json({ message }) *)

Arguments Listed {A} items.
Arguments ListingFailed {A} message.

Definition list_songs (st : State) : listing Song * State :=
  match getSongs st with
  | (Ok all, st') => (Listed all, st')
  | (Throw _, st') => (ListingFailed (str "Failed to fetch songs"), st')
  end.

(** [GET /api/songs/:id] *)
Definition get_song (param_id : jsstring) : State -> response * State :=
  handle
    (song <- getSong param_id ;;
     match song with
     | None => ret (respond 404 (JsonMessage (str "Song not found")))
     | Some s => ret (json (JsonSong s))
     end)
    (fun _ => respond 500 (JsonMessage (str "Failed to fetch song"))).

(** X1. [GET /api/songs] answers with exactly the stored songs (a
    permutation of the values of the map), newest first, songs created at the
    same time in the order they were stored; the state is left as it is. *)
Theorem songs_listed_newest_first (st : State) :
  exists all,
    list_songs st = (Listed all, st)
    /\ Permutation all (JsMap.values (songs st))
    /\ StronglySorted (fun a b => (createdAt b <= createdAt a)%Z) all
    /\ forall t, filter (fun s => createdAt s =? t)%Z all
                 = filter (fun s => createdAt s =? t)%Z (JsMap.values (songs st)).
Proof.
  exists (sort_newest_first (JsMap.values (songs st))).
  split; [reflexivity|]. rewrite sort_newest_first_desc.
  split; [apply sort_desc_perm|].
  split; [apply sort_desc_sorted | intros t; apply sort_desc_stable].
Qed.

(** X2. Storing and reading back.  After [createSong] the song it returned
    is what [getSong] finds under its id, with the given id and creation
    time, and the songs under the other ids are as before.  [updateSong]
    on an id that is not stored returns [undefined] and changes nothing; on
    a stored id it returns the spread of the stored song and the updates,
    which is what [getSong] finds afterwards, and the songs under the other
    ids are as before. *)
Theorem storage_round_trips :
  (forall (insertSong : InsertSong) (uuid : jsstring) (now : Z) (st : State),
      exists song,
        fst (createSong insertSong uuid now st) = Ok song
        /\ id song = uuid /\ createdAt song = now
        /\ getSong uuid (snd (createSong insertSong uuid now st))
           = (Ok (Some song), snd (createSong insertSong uuid now st))
        /\ forall k, k <> uuid ->
             fst (getSong k (snd (createSong insertSong uuid now st)))
             = fst (getSong k st))
  /\ (forall (k : jsstring) (updates : SongUpdates) (st : State),
         JsMap.get (songs st) k = None ->
         updateSong k updates st = (Ok None, st))
  /\ (forall (k : jsstring) (updates : SongUpdates) (st : State) (existing : Song),
         JsMap.get (songs st) k = Some existing ->
         fst (updateSong k updates st) = Ok (Some (spread existing updates))
         /\ fst (getSong k (snd (updateSong k updates st)))
            = Ok (Some (spread existing updates))
         /\ (forall k', k' <> k ->
               fst (getSong k' (snd (updateSong k updates st)))
               = fst (getSong k' st))
         /\ map fst (songs (snd (updateSong k updates st))) = map fst (songs st)).
Proof.
  repeat split.
  - intros insertSong uuid now st. eexists. split; [reflexivity|].
    unfold getSong, createSong. simpl. rewrite map_get_set_same.
    repeat split. intros k Hk. now rewrite map_get_set_other.
  - intros k updates st G. unfold updateSong. now rewrite G.
  - unfold updateSong. now rewrite H.
  - unfold updateSong, getSong. rewrite H. simpl. now rewrite map_get_set_same.
  - intros k' Hk. unfold updateSong, getSong. rewrite H. simpl.
    now rewrite map_get_set_other.
  - unfold updateSong. rewrite H. simpl. now apply map_set_keys with existing.
Qed.

Lemma storage_round_trips_witness :
  fst (updateSong (str "song-1")
         (only_audioUrl (VString (str "https://cdn.example/a.mp3"))) pending_state)
  = Ok (Some resolved_song)
  /\ fst (getSong (str "song-1")
            (snd (updateSong (str "song-1")
                    (only_audioUrl (VString (str "https://cdn.example/a.mp3")))
                    pending_state)))
     = Ok (Some resolved_song).
Proof.
  destruct (proj2 (proj2 storage_round_trips) (str "song-1")
              (only_audioUrl (VString (str "https://cdn.example/a.mp3")))
              pending_state pending_song eq_refl) as (H1 & H2 & _).
  split; [exact H1 | exact H2].
Defined.

(** ** Distinct ids *)

Section MapKeys.

Variable V : Type.
Implicit Types (m : JsMap.t V) (k : jsstring) (v : V).

Lemma map_get_none m k : JsMap.get m k = None <-> ~ In k (map fst m).
Proof.
  induction m as [|[k' v'] m IH]; simpl; [tauto|].
  destruct (JsString.eqb k' k) eqn:E.
  - apply jsstring_eqb_eq in E. split; [discriminate|]. intros H. exfalso. auto.
  - apply jsstring_eqb_false in E. rewrite IH. tauto.
Qed.

Lemma map_set_keys_new m k v :
  JsMap.get m k = None -> map fst (JsMap.set m k v) = map fst m ++ [k].
Proof.
  induction m as [|[k' v'] m IH]; simpl; [reflexivity|].
  destruct (JsString.eqb k' k); [discriminate|]. simpl. intros H. now rewrite IH.
Qed.

Lemma map_set_keys_unique m k v :
  NoDup (map fst m) -> NoDup (map fst (JsMap.set m k v)).
Proof.
  intros H. destruct (JsMap.get m k) as [v0|] eqn:G.
  - now rewrite (map_set_keys m k v G).
  - rewrite (map_set_keys_new m k v G).
    apply NoDup_app; [assumption | repeat constructor; auto |].
    intros x Hx [<-|[]]. now apply map_get_none in G.
Qed.

Lemma map_delete_keys_In m k x :
  In x (map fst (snd (JsMap.delete m k))) -> In x (map fst m).
Proof.
  induction m as [|[k' v'] m IH]; simpl; [tauto|].
  destruct (JsString.eqb k' k); simpl; [now right|].
  destruct (JsMap.delete m k) as [found m']. simpl in *.
  intros [H|H]; [now left | right; now apply IH].
Qed.

Lemma map_delete_keys_unique m k :
  NoDup (map fst m) -> NoDup (map fst (snd (JsMap.delete m k))).
Proof.
  induction m as [|[k' v'] m IH]; simpl; [constructor|].
  intros H. inversion H as [|? ? Hn Hm]; subst.
  destruct (JsString.eqb k' k); simpl; [assumption|].
  pose proof (@map_delete_keys_In m k k') as Hin.
  destruct (JsMap.delete m k) as [found m']. simpl in *.
  constructor; [intros C; apply Hn; now apply Hin | now apply IH].
Qed.

(** Deleting a key that is not there changes nothing. *)
Lemma map_delete_missing m k :
  JsMap.get m k = None -> JsMap.delete m k = (false, m).
Proof.
  induction m as [|[k' v'] m IH]; simpl; [reflexivity|].
  destruct (JsString.eqb k' k); [discriminate|]. intros H. now rewrite IH.
Qed.

Lemma map_delete_found m k v :
  JsMap.get m k = Some v -> fst (JsMap.delete m k) = true.
Proof.
  induction m as [|[k' v'] m IH]; simpl; [discriminate|].
  destruct (JsString.eqb k' k); [reflexivity|]. intros H.
  specialize (IH H). now destruct (JsMap.delete m k).
Qed.

Lemma map_get_delete_other m k k' :
  k' <> k -> JsMap.get (snd (JsMap.delete m k)) k' = JsMap.get m k'.
Proof.
  intros Hne. induction m as [|[k0 v0] m IH]; simpl; [reflexivity|].
  destruct (JsString.eqb k0 k) eqn:E; simpl.
  - apply jsstring_eqb_eq in E. subst k0.
    now rewrite jsstring_eqb_neq by congruence.
  - destruct (JsMap.delete m k) as [found m']. simpl in *. now rewrite IH.
Qed.

Lemma map_get_delete_same m k :
  NoDup (map fst m) -> JsMap.get (snd (JsMap.delete m k)) k = None.
Proof.
  induction m as [|[k0 v0] m IH]; simpl; [reflexivity|].
  intros H. inversion H as [|? ? Hn Hm]; subst.
  destruct (JsString.eqb k0 k) eqn:E; simpl.
  - apply jsstring_eqb_eq in E. subst k0. now apply map_get_none.
  - specialize (IH Hm). destruct (JsMap.delete m k) as [found m']. simpl in *.
    now rewrite E.
Qed.

(** What is left after a deletion is what was there, in the same order. *)
Lemma map_delete_values m k v :
  JsMap.get m k = Some v ->
  exists before after,
    m = before ++ (k, v) :: after /\ snd (JsMap.delete m k) = before ++ after.
Proof.
  induction m as [|[k0 v0] m IH]; simpl; [discriminate|].
  destruct (JsString.eqb k0 k) eqn:E.
  - apply jsstring_eqb_eq in E. subst k0. intros [= ->].
    now exists [], m.
  - intros H. destruct (IH H) as (before & after & -> & Hd).
    exists ((k0, v0) :: before), after.
    destruct (JsMap.delete (before ++ (k, v) :: after) k) as [found m'].
    simpl in *. now subst.
Qed.

End MapKeys.

Lemma serve_keys_unique (r : request) (st : State) :
  NoDup (map fst (songs st)) -> NoDup (map fst (songs (snd (serve r st)))).
Proof.
  intros Hok. destruct r as [completion fetched uuid now body | uuid now body
                            | body | axios_get param_id | param_id]; simpl.
  - rewrite generate_song_eq.
    destruct (safeParse body) as [data|]; [|assumption].
    destruct (generation_outcome completion) as [g|]; [|assumption].
    destruct (obind fetched job_id_of_response) as [jobId|]; [|assumption].
    simpl. now apply map_set_keys_unique.
  - rewrite save_song_eq. destruct (is_nullish body); [assumption|].
    simpl. now apply map_set_keys_unique.
  - destruct (suno_callback_resolves body st)
      as [->|(target & existing & url & G & T & ->)]; [assumption|].
    now apply map_set_keys_unique.
  - destruct (poll_audio_resolves axios_get param_id st)
      as [->|(target & existing & url & G & T & ->)]; [assumption|].
    now apply map_set_keys_unique.
  - rewrite delete_song_songs. now apply map_delete_keys_unique.
Qed.

Lemma reachable_keys_unique (st : State) :
  reachable st -> NoDup (map fst (songs st)).
Proof.
  intros [rs <-].
  enough (H : forall st0, NoDup (map fst (songs st0)) ->
                          NoDup (map fst (songs (serve_all rs st0)))).
  { apply H. constructor. }
  induction rs as [|r rs IH]; intros st0 Hok; simpl; [assumption|].
  apply IH. now apply serve_keys_unique.
Qed.

Lemma map_In_get (V : Type) (m : JsMap.t V) (k : jsstring) (v : V) :
  NoDup (map fst m) -> In (k, v) m -> JsMap.get m k = Some v.
Proof.
  induction m as [|[k0 v0] m IH]; simpl; [tauto|].
  intros H. inversion H as [|? ? Hn Hm]; subst.
  intros [[= -> ->]|Hin].
  - now rewrite jsstring_eqb_refl.
  - destruct (JsString.eqb k0 k) eqn:E.
    + apply jsstring_eqb_eq in E. subst k0. exfalso. apply Hn.
      change k with (fst (k, v)). now apply in_map.
    + now apply IH.
Qed.

Lemma values_In_entry (V : Type) (m : JsMap.t V) (v : V) :
  In v (JsMap.values m) -> exists k, In (k, v) m.
Proof.
  unfold JsMap.values. intros H. apply in_map_iff in H as ([k v'] & E & Hin).
  simpl in E. subst v'. now exists k.
Qed.

(** In a reachable state a listed song is the one stored under its [id]. *)
Lemma reachable_listed_song (st : State) (song : Song) :
  reachable st -> In song (JsMap.values (songs st)) ->
  JsMap.get (songs st) (id song) = Some song.
Proof.
  intros Hr Hin. destruct (values_In_entry _ _ Hin) as [k Hk].
  assert (G : JsMap.get (songs st) k = Some song)
    by (apply map_In_get; [now apply reachable_keys_unique | assumption]).
  assert (E : id song = k) by (eapply reachable_key_is_id; eassumption).
  now rewrite E.
Qed.

(** X3. In every state the server can reach: no two songs are stored under
    the same id; the song stored under an id has that [id]; every listed
    song is the one [getSong] finds under its [id]; and the [audioUrl] of a
    song is [null] or a truthy value. *)
Theorem reachable_store_invariants (st : State) :
  reachable st ->
  NoDup (map fst (songs st))
  /\ (forall k song, JsMap.get (songs st) k = Some song -> id song = k)
  /\ (forall song, In song (JsMap.values (songs st)) ->
                   JsMap.get (songs st) (id song) = Some song)
  /\ (forall song, In song (JsMap.values (songs st)) ->
                   audioUrl song = VNull \/ truthy (audioUrl song) = true).
Proof.
  intros Hr. pose proof (reachable_keys_unique Hr) as Hu.
  split; [assumption|]. split; [|split].
  - intros k song G. now apply reachable_key_is_id with st.
  - intros song Hin. now apply reachable_listed_song.
  - intros song Hin. now apply (reachable_songs_ok Hr).
Qed.

Lemma reachable_store_invariants_witness :
  NoDup (map fst (songs resolved_state))
  /\ (forall k song, JsMap.get (songs resolved_state) k = Some song -> id song = k)
  /\ (forall song, In song (JsMap.values (songs resolved_state)) ->
                   JsMap.get (songs resolved_state) (id song) = Some song)
  /\ (forall song, In song (JsMap.values (songs resolved_state)) ->
                   audioUrl song = VNull \/ truthy (audioUrl song) = true).
Proof. exact (reachable_store_invariants resolved_state_reachable). Defined.

(** ** Deleting a song ([DELETE /api/songs/:id]) *)

Lemma delete_song_eq (param_id : jsstring) (st : State) :
  delete_song param_id st =
  (if fst (JsMap.delete (songs st) param_id)
   then respond 204 NoContent
   else respond 404 (JsonMessage (str "Song not found")),
   {| songs := snd (JsMap.delete (songs st) param_id); calls := calls st |}).
Proof.
  unfold delete_song, handle, bind, deleteSong, ret.
  destruct (JsMap.delete (songs st) param_id) as [[|] m]; reflexivity.
Qed.

(** X4. Deleting an id under which no song is stored answers 404
    [{message: "Song not found"}] and leaves the state as it is.  Deleting a
    stored song answers 204; afterwards the id is not found ([GET
    /api/songs/:id] answers 404), the songs under the other ids are as
    before, the remaining songs keep their order, and no external service
    was called. *)
Theorem delete_song_removes (param_id : jsstring) (st : State) :
  reachable st ->
  (JsMap.get (songs st) param_id = None ->
   delete_song param_id st
   = (respond 404 (JsonMessage (str "Song not found")), st))
  /\ (forall song,
         JsMap.get (songs st) param_id = Some song ->
         let deleted := delete_song param_id st in
         fst deleted = respond 204 NoContent
         /\ JsMap.get (songs (snd deleted)) param_id = None
         /\ fst (get_song param_id (snd deleted))
            = respond 404 (JsonMessage (str "Song not found"))
         /\ (forall k, k <> param_id ->
               JsMap.get (songs (snd deleted)) k = JsMap.get (songs st) k)
         /\ (exists before after,
                songs st = before ++ (param_id, song) :: after
                /\ songs (snd deleted) = before ++ after)
         /\ calls (snd deleted) = calls st).
Proof.
  intros Hr. pose proof (reachable_keys_unique Hr) as Hu. split.
  - intros G. rewrite delete_song_eq, (map_delete_missing _ _ G).
    now destruct st.
  - intros song G. simpl. rewrite delete_song_eq.
    rewrite (map_delete_found _ _ G). simpl.
    assert (Gone : JsMap.get (snd (JsMap.delete (songs st) param_id)) param_id = None)
      by now apply map_get_delete_same.
    repeat split.
    + exact Gone.
    + unfold get_song, handle, bind, getSong. simpl. now rewrite Gone.
    + intros k Hk. now apply map_get_delete_other.
    + now apply map_delete_values.
Qed.

Lemma delete_song_removes_witness :
  let deleted := delete_song (str "song-1") resolved_state in
  fst deleted = respond 204 NoContent
  /\ JsMap.get (songs (snd deleted)) (str "song-1") = None.
Proof.
  destruct (proj2 (delete_song_removes (str "song-1") resolved_state_reachable)
              resolved_song eq_refl) as (H1 & H2 & _).
  split; [exact H1 | exact H2].
Defined.

(** ** More on the webhook *)

Lemma find_exists (A : Type) (p : A -> bool) (l : list A) (x : A) :
  In x l -> p x = true -> exists y, find p l = Some y.
Proof.
  intros Hin Hp. destruct (find p l) as [y|] eqn:F; [now exists y|].
  pose proof (find_none p l F x Hin). congruence.
Qed.




(** X6. A webhook for a job id that a stored song has, but that is not a
    completion with a usable URL (its [callbackType] is not ["complete"], for
    instance the provider's intermediate callbacks, or its [data.data] is
    missing or empty, or the first output carries no [audio_url]), is
    acknowledged with 200 [{received: true}] and changes nothing. *)
Theorem callback_without_completion_is_acknowledged
  (req_body data taskId : value) (st : State) (holder : Song) :
  get req_body (str "data") = Ok data ->
  get data (str "task_id") = Ok taskId ->
  In holder (JsMap.values (songs st)) ->
  strict_eq (sunoJobId holder) taskId = true ->
  get_opt data (str "callbackType") <> VString (str "complete")
  \/ truthy (get_opt data (str "data")) = false
  \/ (forall first, get_index0 (get_opt data (str "data")) = Ok first ->
                    truthy (get_opt first (str "audio_url")) = false) ->
  suno_callback req_body st = (respond 200 JsonReceived, st).
Proof.
  intros Gd Gt Hin Hp Hno.
  destruct (@find_exists _ (fun s => strict_eq (sunoJobId s) taskId)
              (sort_newest_first (JsMap.values (songs st))) holder)
    as [song F]; [now apply sort_newest_first_In | assumption |].
  destruct (get_ok_not_nullish _ _ Gt) as [N _].
  assert (C : completed_audio_url data = Ok None).
  { unfold completed_audio_url, obind.
    rewrite !(get_not_nullish data) by exact N.
    destruct (strict_eq (get_opt data (str "callbackType"))
                (VString (str "complete"))) eqn:E; simpl; [|reflexivity].
    apply strict_eq_string in E.
    destruct (truthy (get_opt data (str "data"))) eqn:T; simpl; [|reflexivity].
    destruct Hno as [H|[H|H]]; [contradiction | discriminate |].
    destruct (get_index0 (get_opt data (str "data"))) as [first|] eqn:I.
    - now rewrite (H first eq_refl).
    - destruct (get_opt data (str "data")); simpl in *; discriminate. }
  rewrite suno_callback_eq, Gd, Gt, F, C. reflexivity.
Qed.

Lemma callback_without_completion_is_acknowledged_witness :
  suno_callback
    (VObject [ (str "data",
                VObject [ (str "task_id", VString (str "job-1"));
                          (str "callbackType", VString (str "text")) ]) ])
    pending_state
  = (respond 200 JsonReceived, pending_state).
Proof.
  apply (@callback_without_completion_is_acknowledged
           (VObject [ (str "data",
                       VObject [ (str "task_id", VString (str "job-1"));
                                 (str "callbackType", VString (str "text")) ]) ])
           (VObject [ (str "task_id", VString (str "job-1"));
                      (str "callbackType", VString (str "text")) ])
           (VString (str "job-1")) pending_state pending_song).
  - reflexivity.
  - reflexivity.
  - left. reflexivity.
  - reflexivity.
  - left. discriminate.
Defined.

(** X7. A webhook whose body has no [data] object (no body at all, a body
    that is not an object, or a [data] that is missing or [null]) is answered
    with 500 [{message: "Failed to process callback"}] and changes
    nothing. *)
Theorem callback_without_data_fails (req_body : value) (st : State) :
  is_nullish (get_opt req_body (str "data")) = true ->
  suno_callback req_body st
  = (respond 500 (JsonMessage (str "Failed to process callback")), st).
Proof.
  intros N. rewrite suno_callback_eq.
  destruct (get req_body (str "data")) as [data|] eqn:Gd; [|reflexivity].
  apply get_ok_not_nullish in Gd as [_ ->].
  destruct (get_opt req_body (str "data")); try discriminate; reflexivity.
Qed.

Lemma callback_without_data_fails_witness :
  suno_callback (VObject [ (str "task_id", VString (str "job-1")) ]) pending_state
  = (respond 500 (JsonMessage (str "Failed to process callback")), pending_state).
Proof. apply callback_without_data_fails. reflexivity. Defined.

(** ** More on the poll *)

(** X8. Once a poll has answered success with a URL for an id, every later
    poll of that id answers success with the same URL, whatever the provider
    would say, without querying it and without changing the state. *)
Theorem poll_success_is_stable (axios_get later : value -> outcome value)
  (param_id : jsstring) (st st1 : State) (url : value) :
  poll_audio axios_get param_id st = (respond 200 (JsonSuccess url), st1) ->
  poll_audio later param_id st1 = (respond 200 (JsonSuccess url), st1).
Proof.
  rewrite !poll_audio_eq.
  destruct (JsMap.get (songs st) param_id) as [song|] eqn:G; [|discriminate].
  destruct (truthy (audioUrl song)) eqn:T.
  - intros [= <- <-]. now rewrite G, T.
  - destruct (negb (truthy (sunoJobId song))); [discriminate|].
    destruct (axios_get (sunoJobId song)) as [sunoData|]; simpl; [|discriminate].
    destruct (poll_decision sunoData) as [[u|]|] eqn:D; try discriminate.
    intros [= <- <-]. simpl. rewrite map_get_set_same. simpl.
    now rewrite (poll_decision_truthy _ D).
Qed.

Lemma poll_success_is_stable_witness :
  poll_audio provider_not_found (str "song-1")
    {| songs := [ (str "song-1", with_audioUrl (VString (str "X")) pending_song) ];
       calls := [ CallTextGeneration; CallSunoGenerate;
                  CallSunoDetails (VString (str "job-1")) ] |}
  = (respond 200 (JsonSuccess (VString (str "X"))),
     {| songs := [ (str "song-1", with_audioUrl (VString (str "X")) pending_song) ];
        calls := [ CallTextGeneration; CallSunoGenerate;
                   CallSunoDetails (VString (str "job-1")) ] |}).
Proof.
  apply (@poll_success_is_stable (provider_complete (str "X")) provider_not_found
           (str "song-1") pending_state).
  reflexivity.
Defined.

(** X9. A song saved through [POST /api/songs] has no job id, so every poll
    of it answers [{status: "running"}], queries no provider and changes
    nothing: its audio never resolves through the poll. *)
Theorem saved_song_polls_running (uuid : jsstring) (now : Z) (req_body : value)
  (st : State) (axios_get : value -> outcome value) :
  is_nullish req_body = false ->
  let saved := save_song uuid now req_body st in
  status (fst saved) = 201
  /\ poll_audio axios_get uuid (snd saved) = (respond 200 JsonRunning, snd saved).
Proof.
  intros N. simpl. rewrite save_song_eq, N. simpl. split; [reflexivity|].
  rewrite poll_audio_eq. simpl. now rewrite map_get_set_same.
Qed.

Lemma saved_song_polls_running_witness :
  let saved :=
    save_song (str "song-2") 2000
      (VObject [ (str "title", VString (str "Rain Song")) ]) pending_state in
  status (fst saved) = 201
  /\ poll_audio (provider_complete (str "X")) (str "song-2") (snd saved)
     = (respond 200 JsonRunning, snd saved).
Proof.
  apply (@saved_song_polls_running (str "song-2") 2000%Z
           (VObject [ (str "title", VString (str "Rain Song")) ]) pending_state
           (provider_complete (str "X"))).
  reflexivity.
Defined.

(** ** More on [POST /api/songs/generate] *)

Definition musical_styles : list jsstring :=
  [str "traditional"; str "highlife"; str "afrobeat"; str "palm-wine"].

Definition complexities : list jsstring :=
  [str "simple"; str "moderate"; str "advanced"].

Lemma existsb_eqb_In (s : jsstring) (options : list jsstring) :
  existsb (JsString.eqb s) options = true <-> In s options.
Proof.
  rewrite existsb_exists. split.
  - intros (x & Hx & E). apply jsstring_eqb_eq in E. now subst.
  - intros H. exists s. split; [assumption | apply jsstring_eqb_refl].
Qed.

Lemma parse_enum_some (options : list jsstring) (dflt : jsstring) (v : value)
  (s : jsstring) :
  parse_enum options dflt v = Some s ->
  (v = VUndefined /\ s = dflt) \/ (v = VString s /\ In s options).
Proof.
  destruct v; simpl; try discriminate.
  - intros [= <-]. now left.
  - destruct (existsb (JsString.eqb s0) options) eqn:E; [|discriminate].
    intros [= <-]. right. split; [reflexivity | now apply existsb_eqb_In].
Qed.

(** What an accepted request is made of. *)
Lemma safeParse_some (req_body : value) (data : GenerateSongRequest) :
  safeParse req_body = Some data ->
  exists props,
    req_body = VObject props
    /\ own_prop props (str "content") = VString (req_content data)
    /\ (10 <= List.length (req_content data))%nat
    /\ ((own_prop props (str "documentId") = VUndefined /\ req_documentId data = None)
        \/ exists d, own_prop props (str "documentId") = VString d
                     /\ req_documentId data = Some d)
    /\ ((own_prop props (str "musicalStyle") = VUndefined
         /\ req_musicalStyle data = str "traditional")
        \/ (own_prop props (str "musicalStyle") = VString (req_musicalStyle data)
            /\ In (req_musicalStyle data) musical_styles))
    /\ ((own_prop props (str "complexity") = VUndefined
         /\ req_complexity data = str "simple")
        \/ (own_prop props (str "complexity") = VString (req_complexity data)
            /\ In (req_complexity data) complexities)).
Proof.
  unfold safeParse. destruct req_body as [| | | | | |props]; try discriminate.
  destruct (own_prop props (str "content")) as [| | | |content| |] eqn:Ec;
    try discriminate.
  destruct (10 <=? List.length content)%nat eqn:El; [|discriminate].
  apply Nat.leb_le in El.
  destruct (parse_enum _ (str "traditional") _) as [style|] eqn:Es;
    [|destruct (own_prop props (str "documentId")); discriminate].
  destruct (parse_enum _ (str "simple") _) as [cx|] eqn:Ex;
    [|destruct (own_prop props (str "documentId")); discriminate].
  apply parse_enum_some in Es, Ex.
  intros H. exists props. split; [reflexivity|].
  destruct (own_prop props (str "documentId")) as [| | | |d| |] eqn:Ed;
    try discriminate; injection H as <-; simpl;
    (split; [exact Ec|]); (split; [exact El|]); split; eauto.
Qed.

(** X10. [POST /api/songs/generate] answers 400 before anything else
    happens (no external call, nothing stored) when the body is not an
    object, when its [content] is missing, is not a string or has fewer
    than 10 code units, or when [musicalStyle] or [complexity] is a string
    outside its enumeration. *)
Theorem generate_rejects_invalid_request
  (completion : outcome ChatCompletion) (fetched : outcome HttpResponse)
  (uuid : jsstring) (now : Z) (st : State) :
  (forall req_body,
      (forall props, req_body <> VObject props) ->
      generate_song completion fetched uuid now req_body st
      = (respond 400 JsonInvalidRequest, st))
  /\ (forall props,
         (forall c, own_prop props (str "content") = VString c ->
                    (List.length c < 10)%nat) ->
         generate_song completion fetched uuid now (VObject props) st
         = (respond 400 JsonInvalidRequest, st))
  /\ (forall props s,
         own_prop props (str "musicalStyle") = VString s ->
         ~ In s musical_styles ->
         generate_song completion fetched uuid now (VObject props) st
         = (respond 400 JsonInvalidRequest, st))
  /\ (forall props s,
         own_prop props (str "complexity") = VString s ->
         ~ In s complexities ->
         generate_song completion fetched uuid now (VObject props) st
         = (respond 400 JsonInvalidRequest, st)).
Proof.
  assert (Hnone : forall req_body,
             safeParse req_body = None ->
             generate_song completion fetched uuid now req_body st
             = (respond 400 JsonInvalidRequest, st)).
  { intros req_body H. now rewrite generate_song_eq, H. }
  repeat split.
  - intros req_body H. apply Hnone.
    destruct req_body; try reflexivity. exfalso. now apply (H props).
  - intros props H. apply Hnone.
    destruct (safeParse (VObject props)) as [data|] eqn:E; [|reflexivity].
    apply safeParse_some in E as (props' & [= <-] & Ec & El & _).
    specialize (H _ Ec). lia.
  - intros props s Hs Hn. apply Hnone.
    destruct (safeParse (VObject props)) as [data|] eqn:E; [|reflexivity].
    apply safeParse_some in E as (props' & [= <-] & _ & _ & _ & [[E _]|[E Hin]] & _);
      rewrite Hs in E; [discriminate|]. injection E as ->. contradiction.
  - intros props s Hs Hn. apply Hnone.
    destruct (safeParse (VObject props)) as [data|] eqn:E; [|reflexivity].
    apply safeParse_some in E as (props' & [= <-] & _ & _ & _ & _ & [[E _]|[E Hin]]);
      rewrite Hs in E; [discriminate|]. injection E as ->. contradiction.
Qed.

Lemma generate_rejects_invalid_request_witness :
  generate_song sample_completion sample_submission (str "song-2") 2000
    (VObject [ (str "content", VString (str "Too short")) ]) pending_state
  = (respond 400 JsonInvalidRequest, pending_state).
Proof.
  apply (proj1 (proj2 (generate_rejects_invalid_request sample_completion
                         sample_submission (str "song-2") 2000%Z pending_state))).
  intros c [= <-]. simpl. lia.
Defined.

(** X11. The external calls of [POST /api/songs/generate]: none when the
    request is invalid (400); the text generation alone when it fails (500),
    so the provider is not contacted for a song without lyrics; the text
    generation and then one job submission otherwise. *)
Theorem generate_calls_in_order
  (completion : outcome ChatCompletion) (fetched : outcome HttpResponse)
  (uuid : jsstring) (now : Z) (req_body : value) (st : State) :
  let result := generate_song completion fetched uuid now req_body st in
  (safeParse req_body = None
   /\ status (fst result) = 400 /\ calls (snd result) = calls st)
  \/ (safeParse req_body <> None
      /\ (exists e, generation_outcome completion = Throw e)
      /\ status (fst result) = 500
      /\ calls (snd result) = calls st ++ [CallTextGeneration])
  \/ (safeParse req_body <> None
      /\ (exists g, generation_outcome completion = Ok g)
      /\ (status (fst result) = 500 \/ status (fst result) = 201)
      /\ calls (snd result) = calls st ++ [CallTextGeneration; CallSunoGenerate]).
Proof.
  simpl. rewrite generate_song_eq.
  destruct (safeParse req_body) as [data|]; [|left; repeat split].
  right. destruct (generation_outcome completion) as [g|e].
  - right. split; [discriminate|]. split; [now exists g|].
    destruct (obind fetched job_id_of_response) as [jobId|]; simpl;
      rewrite <- app_assoc; (split; [|reflexivity]);
      first [left; reflexivity | right; reflexivity].
  - left. split; [discriminate|]. split; [now exists e|]. split; reflexivity.
Qed.

Lemma or_else_truthy (a d : value) : truthy d = true -> truthy (or_else a d) = true.
Proof. intros H. unfold or_else. now destruct (truthy a) eqn:E. Qed.

Lemma or_else_cases (a d : value) :
  truthy (or_else a d) = true \/ or_else a d = d.
Proof. unfold or_else. destruct (truthy a) eqn:E; [now left | now right]. Qed.

(** X12. Whatever the text-generation service answers, a result of
    [generateSongWithAI] has a truthy [title] and a truthy [topic], and
    each of [lyrics], [rhythmPattern] and [culturalNotes] is a truthy value or
    the empty string: no field is ever [null], [undefined], [0] or
    [false]. *)
Theorem generated_fields_are_filled (completion : outcome ChatCompletion)
  (st : State) (g : Generated) :
  fst (generateSongWithAI completion st) = Ok g ->
  truthy (gen_title g) = true
  /\ truthy (gen_topic g) = true
  /\ (truthy (gen_lyrics g) = true \/ gen_lyrics g = VString [])
  /\ (truthy (gen_rhythmPattern g) = true \/ gen_rhythmPattern g = VString [])
  /\ (truthy (gen_culturalNotes g) = true \/ gen_culturalNotes g = VString []).
Proof.
  rewrite generateSongWithAI_eq. simpl. unfold generation_outcome.
  destruct completion as [response|e]; simpl; [|discriminate].
  unfold song_of_text, obind.
  destruct (JsString.is_empty _).
  - intros [= <-]. simpl. repeat split; auto.
  - match goal with |- context [get ?p (str "title")] => set (parsed := p) end.
    destruct (get parsed (str "title")) as [t|]; [|discriminate].
    destruct (get parsed (str "topic")) as [p|]; [|discriminate].
    destruct (get parsed (str "lyrics")) as [l|]; [|discriminate].
    destruct (get parsed (str "rhythmPattern")) as [r|]; [|discriminate].
    destruct (get parsed (str "culturalNotes")) as [c|]; [|discriminate].
    intros [= <-]. simpl.
    repeat split; try (now apply or_else_truthy); apply or_else_cases.
Qed.

Lemma generated_fields_are_filled_witness :
  truthy (gen_title (raw_text_song (str "Rain de fall, pikin dem sing"))) = true
  /\ truthy (gen_topic (raw_text_song (str "Rain de fall, pikin dem sing"))) = true
  /\ (truthy (gen_lyrics (raw_text_song (str "Rain de fall, pikin dem sing"))) = true
      \/ gen_lyrics (raw_text_song (str "Rain de fall, pikin dem sing")) = VString [])
  /\ (truthy (gen_rhythmPattern (raw_text_song (str "Rain de fall, pikin dem sing")))
      = true
      \/ gen_rhythmPattern (raw_text_song (str "Rain de fall, pikin dem sing"))
         = VString [])
  /\ (truthy (gen_culturalNotes (raw_text_song (str "Rain de fall, pikin dem sing")))
      = true
      \/ gen_culturalNotes (raw_text_song (str "Rain de fall, pikin dem sing"))
         = VString []).
Proof.
  apply (@generated_fields_are_filled
           (answer_with (str "Rain de fall, pikin dem sing")) initial).
  reflexivity.
Defined.

(** X13. When [POST /api/songs/generate] answers 201 with a song, that song
    is stored under the new id: [GET /api/songs/:id] answers 200 with it.  Its
    [sourceText] is the first 500 code units of the request's [content] (the
    whole content when it is not longer), its [musicalStyle] is one of the
    four styles ("traditional" when the request names none), and its
    [sourceDocumentId] is the request's [documentId] or [null]. *)
Theorem generated_song_is_stored
  (completion : outcome ChatCompletion) (fetched : outcome HttpResponse)
  (uuid : jsstring) (now : Z) (req_body : value) (st st' : State) (song : Song) :
  generate_song completion fetched uuid now req_body st
  = (respond 201 (JsonSong song), st') ->
  get_song uuid st' = (respond 200 (JsonSong song), st')
  /\ id song = uuid /\ createdAt song = now
  /\ (exists props content style,
         req_body = VObject props
         /\ own_prop props (str "content") = VString content
         /\ sourceText song = VString (firstn 500 content)
         /\ (List.length (firstn 500 content) <= 500)%nat
         /\ ((List.length content <= 500)%nat -> sourceText song = VString content)
         /\ musicalStyle song = VString style
         /\ In style musical_styles
         /\ (own_prop props (str "musicalStyle") = VUndefined ->
             style = str "traditional")
         /\ (sourceDocumentId song = VNull
             \/ sourceDocumentId song = own_prop props (str "documentId"))).
Proof.
  rewrite generate_song_eq.
  destruct (safeParse req_body) as [data|] eqn:P; [|discriminate].
  destruct (generation_outcome completion) as [g|]; [|discriminate].
  destruct (obind fetched job_id_of_response) as [jobId|]; [|discriminate].
  intros [= <- <-].
  split; [|split; [reflexivity|split; [reflexivity|]]].
  - unfold get_song, handle, bind, getSong. simpl. now rewrite map_get_set_same.
  - apply safeParse_some in P as (props & -> & Ec & El & Hd & Hs & _).
    exists props, (req_content data), (req_musicalStyle data).
    unfold generated_song, JsString.substring0.
    cbn [sourceText musicalStyle sourceDocumentId].
    split; [reflexivity|]. split; [assumption|]. split; [reflexivity|].
    split; [apply firstn_le_length|].
    split; [intros H; now rewrite firstn_all2|].
    split; [reflexivity|].
    split; [destruct Hs as [[_ ->]|[_ H]]; [now left | assumption]|].
    split.
    + intros U. destruct Hs as [[_ ->]|[E _]]; [reflexivity|congruence].
    + destruct Hd as [[_ ->]|(d & Ed & ->)]; [now left|].
      rewrite Ed. destruct d; [left|right]; reflexivity.
Qed.

Lemma generated_song_is_stored_witness :
  get_song (str "song-1") pending_state
  = (respond 200 (JsonSong pending_song), pending_state)
  /\ id pending_song = str "song-1".
Proof.
  destruct (@generated_song_is_stored sample_completion sample_submission
              (str "song-1") 1000%Z sample_request initial pending_state
              pending_song eq_refl) as (H1 & H2 & _).
  split; [exact H1 | exact H2].
Defined.

(** X14. How a failed job submission shows.  For a valid request whose
    lyrics were generated: when the [fetch] throws, the route answers 500
    with the error's message; when the provider answers with a non-OK
    status, it answers 500 with ["Suno API error: "] followed by the body;
    when the provider answers OK with a JSON body whose [data] is missing or
    [null], it answers 500 as well.  In all three cases no song is
    stored. *)
Theorem submission_failure_is_reported
  (completion : outcome ChatCompletion) (fetched : outcome HttpResponse)
  (uuid : jsstring) (now : Z) (req_body : value) (st : State)
  (data : GenerateSongRequest) (g : Generated) :
  safeParse req_body = Some data ->
  generation_outcome completion = Ok g ->
  let result := generate_song completion fetched uuid now req_body st in
  (forall e, fetched = Throw e ->
             fst result
             = respond 500 (JsonMessage (message_or e (str "Failed to generate song")))
             /\ songs (snd result) = songs st)
  /\ (forall response, fetched = Ok response -> ok response = false ->
         fst result
         = respond 500 (JsonMessage (str "Suno API error: " ++ body_text response))
         /\ songs (snd result) = songs st)
  /\ (forall response parsed,
         fetched = Ok response -> ok response = true ->
         Json.parse (body_text response) = Some parsed ->
         is_nullish (get_opt parsed (str "data")) = true ->
         status (fst result) = 500 /\ songs (snd result) = songs st).
Proof.
  intros P G. simpl. rewrite generate_song_eq, P, G. repeat split.
  - subst fetched. reflexivity.
  - subst fetched. reflexivity.
  - subst fetched. simpl. unfold job_id_of_response. now rewrite H0.
  - subst fetched. simpl. unfold job_id_of_response. now rewrite H0.
  - subst fetched. simpl. unfold job_id_of_response, response_json.
    rewrite H0, H1. simpl.
    destruct parsed; simpl in *; try reflexivity;
      destruct (own_prop props (str "data")); simpl in *; try discriminate;
      reflexivity.
  - subst fetched. simpl. unfold job_id_of_response, response_json.
    rewrite H0, H1. simpl.
    destruct parsed; simpl in *; try reflexivity;
      destruct (own_prop props (str "data")); simpl in *; try discriminate;
      reflexivity.
Qed.

Lemma submission_failure_is_reported_witness :
  let result :=
    generate_song sample_completion submission_refused (str "song-1") 1000
      sample_request initial in
  fst result = respond 500 (JsonMessage (str "Suno API error: quota exceeded"))
  /\ songs (snd result) = songs initial.
Proof.
  refine (proj1 (proj2 (@submission_failure_is_reported sample_completion
                          submission_refused (str "song-1") 1000%Z sample_request
                          initial _ _ eq_refl eq_refl))
            {| ok := false; body_text := str "quota exceeded" |} eq_refl eq_refl).
Defined.

(** ** Stripping code fences *)

(** Does [s] contain three backticks in a row? *)
Fixpoint has_fence (s : jsstring) : bool :=
  match s with
  | [] => false
  | _ :: s' => JsString.starts_with (str "```") s || has_fence s'
  end.

Lemma strip_fences_from_skip (n : nat) (text : jsstring) :
  strip_fences_from n text = strip_fences_from 0 (skipn n text).
Proof.
  revert text. induction n as [|n IH]; intros text; [reflexivity|].
  destruct text as [|c rest]; [reflexivity|]. simpl skipn. rewrite <- IH.
  reflexivity.
Qed.

Lemma fence_eq : str "```" = [96; 96; 96]%N.
Proof. reflexivity. Qed.

Lemma starts_with_cons (x y : N) (p s : jsstring) :
  JsString.starts_with (x :: p) (y :: s) = (x =? y)%N && JsString.starts_with p s.
Proof. reflexivity. Qed.

Lemma starts_with_app (p q s : jsstring) :
  JsString.starts_with (p ++ q) s = true -> JsString.starts_with p s = true.
Proof.
  revert s. induction p as [|x p IH]; intros s; [reflexivity|].
  destruct s as [|y s]; [discriminate|].
  simpl app. rewrite !starts_with_cons. intros H.
  apply andb_true_iff in H as [Hx Hp]. rewrite Hx. now apply IH.
Qed.

Lemma strip_fences_unfold (c : N) (rest : jsstring) :
  strip_fences_from 0 (c :: rest)
  = if JsString.starts_with (str "```json") (c :: rest)
    then strip_fences_from 6 rest
    else if JsString.starts_with (str "```") (c :: rest)
         then strip_fences_from 2 rest
         else c :: strip_fences_from 0 rest.
Proof. reflexivity. Qed.

(** One step of the replacement at a position where no fence starts. *)
Lemma strip_fences_step (c : N) (rest : jsstring) :
  JsString.starts_with (str "```") (c :: rest) = false ->
  strip_fences_from 0 (c :: rest) = c :: strip_fences_from 0 rest.
Proof.
  intros H. rewrite strip_fences_unfold, H.
  destruct (JsString.starts_with (str "```json") (c :: rest)) eqn:E;
    [|reflexivity].
  change (str "```json") with (str "```" ++ str "json") in E.
  apply starts_with_app in E. congruence.
Qed.

Lemma not_tick_no_fence (c : N) (rest : jsstring) :
  (96 =? c)%N = false -> JsString.starts_with (str "```") (c :: rest) = false.
Proof. intros H. rewrite fence_eq, starts_with_cons, H. reflexivity. Qed.

(** Dropping a fence does not bring two backticks to the front. *)
Lemma strip_fences_no_new_ticks (rest : jsstring) :
  JsString.starts_with [96; 96]%N rest = false ->
  JsString.starts_with [96; 96]%N (strip_fences_from 0 rest) = false.
Proof.
  intros H. destruct rest as [|d rest]; [reflexivity|].
  rewrite starts_with_cons in H.
  destruct (96 =? d)%N eqn:Ed.
  - cbn [andb] in H.
    assert (Hd : JsString.starts_with (str "```") (d :: rest) = false).
    { rewrite fence_eq, starts_with_cons, Ed. cbn [andb].
      destruct rest as [|e rest]; [reflexivity|].
      rewrite starts_with_cons in H |- *.
      destruct (96 =? e)%N; [discriminate|reflexivity]. }
    rewrite strip_fences_step by exact Hd. rewrite starts_with_cons, Ed. cbn [andb].
    destruct rest as [|e rest]; [reflexivity|].
    rewrite starts_with_cons in H.
    destruct (96 =? e)%N eqn:Ee; [discriminate|].
    rewrite strip_fences_step by (apply not_tick_no_fence; exact Ee).
    rewrite starts_with_cons, Ee.
    reflexivity.
  - rewrite strip_fences_step by (apply not_tick_no_fence; exact Ed).
    rewrite starts_with_cons, Ed.
    reflexivity.
Qed.

Lemma has_fence_cons (c : N) (s : jsstring) :
  has_fence (c :: s) = JsString.starts_with (str "```") (c :: s) || has_fence s.
Proof. reflexivity. Qed.

Lemma strip_fences_bounded (n : nat) (text : jsstring) :
  (List.length text <= n)%nat -> has_fence (strip_fences_from 0 text) = false.
Proof.
  revert text. induction n as [|n IH]; intros text Hlen.
  - destruct text; [reflexivity | simpl in Hlen; lia].
  - destruct text as [|c rest]; [reflexivity|]. simpl in Hlen.
    destruct (JsString.starts_with (str "```") (c :: rest)) eqn:F.
    + assert (E : exists k, strip_fences_from 0 (c :: rest)
                            = strip_fences_from 0 (skipn k rest)).
      { rewrite strip_fences_unfold, F.
        destruct (JsString.starts_with (str "```json") (c :: rest));
          [exists 6%nat | exists 2%nat]; apply strip_fences_from_skip. }
      destruct E as [k ->]. apply IH.
      pose proof (length_skipn k rest). lia.
    + rewrite strip_fences_step by exact F. rewrite has_fence_cons.
      rewrite (IH rest) by lia. rewrite orb_false_r.
      rewrite fence_eq, starts_with_cons in F |- *.
      destruct (96 =? c)%N; [|reflexivity].
      cbn [andb] in F |- *. now apply strip_fences_no_new_ticks.
Qed.

Lemma strip_fences_fixed (s : jsstring) :
  has_fence s = false -> strip_fences_from 0 s = s.
Proof.
  induction s as [|c s IH]; [reflexivity|].
  rewrite has_fence_cons.
  intros H. apply orb_false_iff in H as [F Hs].
  rewrite strip_fences_step by exact F. now rewrite IH.
Qed.

Lemma no_tick_no_fence (s : jsstring) :
  (forall c, In c s -> c <> 96%N) -> has_fence s = false.
Proof.
  induction s as [|c s IH]; [reflexivity|]. intros H.
  rewrite has_fence_cons.
  rewrite IH by (intros x Hx; apply H; now right).
  rewrite orb_false_r. apply not_tick_no_fence.
  destruct (96 =? c)%N eqn:E; [|reflexivity].
  apply N.eqb_eq in E. exfalso. apply (H c); [now left | congruence].
Qed.

Lemma strip_fences_before_fence (body : jsstring) :
  (forall c, In c body -> c <> 96%N) ->
  strip_fences_from 0 (body ++ str "```") = body.
Proof.
  induction body as [|c body IH]; intros H; [reflexivity|].
  simpl app. rewrite strip_fences_step.
  - rewrite IH by (intros x Hx; apply H; now right). reflexivity.
  - apply not_tick_no_fence. destruct (96 =? c)%N eqn:E; [|reflexivity].
    apply N.eqb_eq in E. exfalso. apply (H c); [now left | congruence].
Qed.

(** X15. What [text.replace(/```json|```/g, "")] leaves contains no run of
    three backticks, so stripping again changes nothing; a text without a
    fence is left as it is; and an answer fenced as [```json ... ```] around
    a body without backticks is cleaned to the trimmed body, the same text
    the bare body is cleaned to. *)
Theorem strip_fences_leaves_no_fence :
  (forall text, has_fence (strip_fences text) = false)
  /\ (forall text, strip_fences (strip_fences text) = strip_fences text)
  /\ (forall text, has_fence text = false -> strip_fences text = text)
  /\ (forall body,
         (forall c, In c body -> c <> 96%N) ->
         clean_json (str "```json" ++ body ++ str "```") = JsString.trim body
         /\ clean_json body = JsString.trim body).
Proof.
  assert (Hfree : forall text, has_fence (strip_fences text) = false)
    by (intros text; now apply strip_fences_bounded with (List.length text)).
  split; [exact Hfree|]. split; [|split].
  - intros text. unfold strip_fences at 1. apply strip_fences_fixed, Hfree.
  - intros text. apply strip_fences_fixed.
  - intros body H. unfold clean_json, strip_fences. split.
    + change (strip_fences_from 0 (str "```json" ++ body ++ str "```"))
        with (strip_fences_from 0 (body ++ str "```")).
      now rewrite strip_fences_before_fence.
    + now rewrite strip_fences_fixed by now apply no_tick_no_fence.
Qed.

Lemma strip_fences_leaves_no_fence_witness :
  clean_json (str "```json" ++ json_text "{'title':'Rain Song'}" ++ str "```")
  = JsString.trim (json_text "{'title':'Rain Song'}")
  /\ clean_json (json_text "{'title':'Rain Song'}")
     = JsString.trim (json_text "{'title':'Rain Song'}").
Proof.
  apply (proj2 (proj2 (proj2 strip_fences_leaves_no_fence))).
  intros c H. vm_compute in H.
  repeat (destruct H as [<-|H]; [discriminate|]). destruct H.
Defined.

(** ** Answers without the wrapping *)

(** X16. For a stored song with a job id and no audio URL yet: a provider
    answer whose own [data] field is an array, such as the unwrapped
    [{data: [{audio_url}], callbackType: "complete"}], is never recognised
    as complete ([sunoData.data || sunoData] takes the array for the task
    data): the poll answers [{status: "running"}] and stores nothing.  For an
    answer that has no truthy [data] field, the poll answers success exactly
    when the answer's own [callbackType] is ["complete"] and its own
    [audio_url] is truthy, and then stores that URL; otherwise it answers
    [{status: "running"}] and stores nothing. *)
Theorem poll_unwrapped_answers (axios_get : value -> outcome value)
  (param_id : jsstring) (st : State) (song : Song) :
  JsMap.get (songs st) param_id = Some song ->
  truthy (audioUrl song) = false ->
  truthy (sunoJobId song) = true ->
  (forall props elems,
      axios_get (sunoJobId song) = Ok (VObject props) ->
      own_prop props (str "data") = VArray elems ->
      poll_audio axios_get param_id st
      = (respond 200 JsonRunning, queried (sunoJobId song) st))
  /\ (forall props,
         axios_get (sunoJobId song) = Ok (VObject props) ->
         truthy (own_prop props (str "data")) = false ->
         poll_audio axios_get param_id st
         = if strict_eq (own_prop props (str "callbackType"))
                (VString (str "complete"))
              && truthy (own_prop props (str "audio_url"))
           then (respond 200 (JsonSuccess (own_prop props (str "audio_url"))),
                 {| songs := JsMap.set (songs st) param_id
                               (with_audioUrl (own_prop props (str "audio_url")) song);
                    calls := calls st ++ [CallSunoDetails (sunoJobId song)] |})
           else (respond 200 JsonRunning, queried (sunoJobId song) st)).
Proof.
  intros G Ta Tj. split.
  - intros props elems Hget Hdata.
    rewrite poll_audio_eq, G, Ta, Tj, Hget. simpl.
    unfold poll_decision, obind. simpl get. rewrite Hdata. reflexivity.
  - intros props Hget Hdata.
    rewrite poll_audio_eq, G, Ta, Tj, Hget. simpl.
    rewrite (@poll_decision_spec (VObject props) (VObject props)).
    + assert (E : normalized_audio_url (VObject props)
                  = if truthy (own_prop props (str "audio_url"))
                    then own_prop props (str "audio_url") else VNull).
      { unfold normalized_audio_url, url_field. simpl get_opt.
        destruct (own_prop props (str "data")) as [| |b|n|s|elems|dprops];
          simpl in Hdata; try discriminate; simpl;
          destruct (truthy (own_prop props (str "audio_url"))); reflexivity. }
      rewrite E. simpl get_opt.
      destruct (strict_eq (own_prop props (str "callbackType"))
                  (VString (str "complete"))); [|reflexivity].
      destruct (truthy (own_prop props (str "audio_url"))) eqn:T;
        simpl; rewrite ?T; reflexivity.
    + unfold task_data.
      change (get (VObject props) (str "data"))
        with (Ok (own_prop props (str "data"))).
      unfold obind, or_else. now rewrite Hdata.
Qed.

Lemma poll_unwrapped_answers_witness :
  poll_audio
    (fun _ => Ok (VObject [ (str "data",
                             VArray [ VObject [ (str "audio_url", VString (str "X")) ] ]);
                            (str "callbackType", VString (str "complete")) ]))
    (str "song-1") pending_state
  = (respond 200 JsonRunning, queried (VString (str "job-1")) pending_state).
Proof.
  exact (proj1 (@poll_unwrapped_answers _ (str "song-1") pending_state
                  pending_song eq_refl eq_refl eq_refl)
           [ (str "data", VArray [ VObject [ (str "audio_url", VString (str "X")) ] ]);
             (str "callbackType", VString (str "complete")) ]
           [ VObject [ (str "audio_url", VString (str "X")) ] ]
           eq_refl eq_refl).
Defined.

(** ** External calls *)

(** X17. The webhook handler and the routes that save, read and delete
    songs call no external service.  A poll queries the provider at most
    once, and only for a stored song that has a job id and no audio URL yet,
    with that song's job id. *)
Theorem external_calls_of_the_routes :
  (forall req_body st, calls (snd (suno_callback req_body st)) = calls st)
  /\ (forall uuid now req_body st,
         calls (snd (save_song uuid now req_body st)) = calls st)
  /\ (forall param_id st, calls (snd (get_song param_id st)) = calls st)
  /\ (forall st, calls (snd (list_songs st)) = calls st)
  /\ (forall param_id st, calls (snd (delete_song param_id st)) = calls st)
  /\ (forall axios_get param_id st,
         calls (snd (poll_audio axios_get param_id st)) = calls st
         \/ exists song,
              JsMap.get (songs st) param_id = Some song
              /\ truthy (audioUrl song) = false
              /\ truthy (sunoJobId song) = true
              /\ calls (snd (poll_audio axios_get param_id st))
                 = calls st ++ [CallSunoDetails (sunoJobId song)]).
Proof.
  repeat split.
  - intros req_body st. rewrite suno_callback_eq.
    destruct (get req_body (str "data")) as [data|]; [|reflexivity].
    destruct (get data (str "task_id")) as [taskId|]; [|reflexivity].
    destruct (find _ _) as [song|]; [|reflexivity].
    destruct (completed_audio_url data) as [[url|]|]; try reflexivity.
    destruct (JsMap.get (songs st) (id song)); reflexivity.
  - intros uuid now req_body st. rewrite save_song_eq.
    destruct (is_nullish req_body); reflexivity.
  - intros param_id st. unfold get_song, handle, bind, getSong. simpl.
    destruct (JsMap.get (songs st) param_id); reflexivity.
  - intros param_id st. now rewrite delete_song_eq.
  - intros axios_get param_id st. rewrite poll_audio_eq.
    destruct (JsMap.get (songs st) param_id) as [song|] eqn:G; [|now left].
    destruct (truthy (audioUrl song)) eqn:Ta; [now left|].
    destruct (truthy (sunoJobId song)) eqn:Tj; simpl; [|now left].
    right. exists song.
    split; [reflexivity|]. split; [exact Ta|]. split; [exact Tj|].
    destruct (obind (axios_get (sunoJobId song)) poll_decision) as [[url|]|];
      reflexivity.
Qed.

(** ** Documents ([shared/schema.ts], [MemStorage], the document routes) *)

(** A row of the [documents] table. *)
Record Document : Type := mkDocument {
  doc_id : jsstring;
  filename : jsstring;
  originalName : jsstring;
  mimeType : jsstring;
  size : N;
  content : jsstring;
  uploadedAt : Z
}.

(** [InsertDocument]: a document without [id] and [uploadedAt]. *)
Record InsertDocument : Type := mkInsertDocument {
  ins_filename : jsstring;
  ins_originalName : jsstring;
  ins_mimeType : jsstring;
  ins_size : N;
  ins_content : jsstring
}.

(** The [documents] map of [MemStorage], which the document operations
    alone read and write. *)
Definition Documents : Type := JsMap.t Document.

(** A computation over the documents. *)
Definition DM (A : Type) : Type := Documents -> outcome A * Documents.

Definition dret {A} (a : A) : DM A := fun docs => (Ok a, docs).

Definition dbind {A B} (m : DM A) (k : A -> DM B) : DM B :=
  fun docs =>
    match m docs with
    | (Ok a, docs') => k a docs'
    | (Throw e, docs') => (Throw e, docs')
    end.

Definition dlift {A} (o : outcome A) : DM A := fun docs => (o, docs).

Declare Scope doc_scope.
Delimit Scope doc_scope with doc.
Notation "x <- m ;; k" := (dbind m (fun x => k))
  (at level 61, m at next level, right associativity) : doc_scope.

Definition getDocuments : DM (list Document) :=
  fun docs => (Ok (sort_desc uploadedAt (JsMap.values docs)), docs).

Definition getDocument (id : jsstring) : DM (option Document) :=
  fun docs => (Ok (JsMap.get docs id), docs).

(** [{ ...insertDocument, id, uploadedAt: new Date() }] is stored under [id]. *)
Definition createDocument (insertDocument : InsertDocument) (uuid : jsstring)
  (now : Z) : DM Document :=
  fun docs =>
    let document :=
      {| doc_id := uuid;
         filename := ins_filename insertDocument;
         originalName := ins_originalName insertDocument;
         mimeType := ins_mimeType insertDocument;
         size := ins_size insertDocument;
         content := ins_content insertDocument;
         uploadedAt := now |} in
    (Ok document, JsMap.set docs uuid document).

Definition deleteDocument (id : jsstring) : DM bool :=
  fun docs => let (found, m) := JsMap.delete docs id in (Ok found, m).

(** *** Text extraction ([extractTextFromFile]) *)

(** An uploaded buffer, as each of the three readers takes it: the text
    [buffer.toString("utf-8")]; the PDF document that [pdfjsLib.getDocument]
    loads, its pages in order, each the [str] of its text items (none for an
    item without one) or the failure of reading the page; and the [value] of
    [mammoth.extractRawText]. *)
Record FileBuffer : Type := mkFileBuffer {
  as_utf8 : jsstring;
  as_pdf : outcome (list (outcome (list (option jsstring))));
  as_docx : outcome jsstring
}.

(** [strings.join(sep)] *)
Fixpoint join (sep : jsstring) (strings : list jsstring) : jsstring :=
  match strings with
  | [] => []
  | [s] => s
  | s :: rest => s ++ sep ++ join sep rest
  end.

(** [textContent.items.map((item) => item.str).join(' ')]: [join] writes
    nothing for an [undefined] element. *)
Definition page_text (items : list (option jsstring)) : jsstring :=
  join (str " ")
    (map (fun item => match item with Some s => s | None => [] end) items).

(** The loop over the pages: [fullText += pageText + '\n']. *)
Fixpoint pages_text (pages : list (outcome (list (option jsstring))))
  (fullText : jsstring) : outcome jsstring :=
  match pages with
  | [] => Ok fullText
  | Ok items :: rest => pages_text rest (fullText ++ page_text items ++ [10%N])
  | Throw e :: _ => Throw e
  end.

Definition extractTextFromFile (buffer : FileBuffer) (mime : jsstring)
  : outcome jsstring :=
  if JsString.eqb mime (str "text/plain") then Ok (as_utf8 buffer)
  else if JsString.eqb mime (str "application/pdf") then
    match (pdf <~ as_pdf buffer ;;
           fullText <~ pages_text pdf [] ;;
           Ok (JsString.trim fullText))%js with
    | Ok text => Ok text
    | Throw error =>
        Throw (JsError (str "Failed to parse PDF: "
                        ++ message_or error (str "Unknown error")))
    end
  else if JsString.eqb mime
            (str "application/vnd.openxmlformats-officedocument.wordprocessingml.document")
  then as_docx buffer
  else Throw (JsError (str "Unsupported file type")).

(** *** The document routes *)

(** [req.file], as [multer] provides it. *)
Record UploadedFile : Type := mkUploadedFile {
  buffer : FileBuffer;
  originalname : jsstring;
  mimetype : jsstring;
  file_size : N
}.

Inductive doc_body : Type :=
| DocMessage (message : jsstring)   (* { message } *)
| DocJson (document : Document)
| DocNoContent.

Record doc_response : Type := mkDocResponse {
  doc_status : nat;
  doc_payload : doc_body
}.

(** [try { ... } catch (error) { ... }] around the body of a document route. *)
Definition doc_handle (attempt : DM doc_response) (on_error : exn -> doc_response)
  (docs : Documents) : doc_response * Documents :=
  match attempt docs with
  | (Ok r, docs') => (r, docs')
  | (Throw e, docs') => (on_error e, docs')
  end.

(** [GET /api/documents] *)
Definition list_documents (docs : Documents) : listing Document * Documents :=
  match getDocuments docs with
  | (Ok all, docs') => (Listed all, docs')
  | (Throw _, docs') => (ListingFailed (str "Failed to fetch documents"), docs')
  end.

(** [GET /api/documents/:id] *)
Definition get_document (param_id : jsstring)
  : Documents -> doc_response * Documents :=
  doc_handle
    (document <- getDocument param_id ;;
     match document with
     | None => dret {| doc_status := 404;
                       doc_payload := DocMessage (str "Document not found") |}
     | Some d => dret {| doc_status := 200; doc_payload := DocJson d |}
     end)%doc
    (fun _ => {| doc_status := 500;
                 doc_payload := DocMessage (str "Failed to fetch document") |}).

(** [POST /api/documents/upload] *)
Definition upload_document (uuid : jsstring) (now : Z) (file : option UploadedFile)
  : Documents -> doc_response * Documents :=
  doc_handle
    (match file with
     | None => dret {| doc_status := 400;
                       doc_payload := DocMessage (str "No file uploaded") |}
     | Some f =>
         (text <- dlift (extractTextFromFile (buffer f) (mimetype f)) ;;
          document <- createDocument
                        {| ins_filename := originalname f;
                           ins_originalName := originalname f;
                           ins_mimeType := mimetype f;
                           ins_size := file_size f;
                           ins_content := text |}
                        uuid now ;;
          dret {| doc_status := 201; doc_payload := DocJson document |})%doc
     end)
    (fun error =>
       {| doc_status := 500;
          doc_payload :=
            DocMessage (message_or error (str "Failed to upload document")) |}).

(** [DELETE /api/documents/:id] *)
Definition delete_document (param_id : jsstring)
  : Documents -> doc_response * Documents :=
  doc_handle
    (deleted <- deleteDocument param_id ;;
     if negb deleted
     then dret {| doc_status := 404;
                  doc_payload := DocMessage (str "Document not found") |}
     else dret {| doc_status := 204; doc_payload := DocNoContent |})%doc
    (fun _ => {| doc_status := 500;
                 doc_payload := DocMessage (str "Failed to delete document") |}).

(** *** Uploading *)

Lemma upload_document_eq (uuid : jsstring) (now : Z) (file : option UploadedFile)
  (docs : Documents) :
  upload_document uuid now file docs =
  match file with
  | None => ({| doc_status := 400;
                doc_payload := DocMessage (str "No file uploaded") |}, docs)
  | Some f =>
      match extractTextFromFile (buffer f) (mimetype f) with
      | Throw error =>
          ({| doc_status := 500;
              doc_payload :=
                DocMessage (message_or error (str "Failed to upload document")) |},
           docs)
      | Ok text =>
          let document :=
            {| doc_id := uuid; filename := originalname f;
               originalName := originalname f; mimeType := mimetype f;
               size := file_size f; content := text; uploadedAt := now |} in
          ({| doc_status := 201; doc_payload := DocJson document |},
           JsMap.set docs uuid document)
      end
  end.
Proof.
  unfold upload_document, doc_handle. destruct file as [f|]; [|reflexivity].
  unfold dbind, dlift.
  destruct (extractTextFromFile (buffer f) (mimetype f)); reflexivity.
Qed.

Definition pdf_mime : jsstring := str "application/pdf".

Definition docx_mime : jsstring :=
  str "application/vnd.openxmlformats-officedocument.wordprocessingml.document".

(** X18. An upload stores a document only when it answers 201.  Without a
    file it answers 400 [{message: "No file uploaded"}]; for a file whose
    MIME type is not plain text, PDF or DOCX it answers 500 [{message:
    "Unsupported file type"}], whatever the file holds; for a PDF that
    fails to load, or one of whose pages fails to be read, it answers 500
    with ["Failed to parse PDF: "] followed by the error's message. *)
Theorem upload_failures_store_nothing (uuid : jsstring) (now : Z)
  (docs : Documents) :
  (forall file,
      doc_status (fst (upload_document uuid now file docs)) <> 201 ->
      snd (upload_document uuid now file docs) = docs)
  /\ upload_document uuid now None docs
     = ({| doc_status := 400; doc_payload := DocMessage (str "No file uploaded") |},
        docs)
  /\ (forall f,
         mimetype f <> str "text/plain" -> mimetype f <> pdf_mime ->
         mimetype f <> docx_mime ->
         upload_document uuid now (Some f) docs
         = ({| doc_status := 500;
               doc_payload := DocMessage (str "Unsupported file type") |}, docs))
  /\ (forall f message,
         mimetype f = pdf_mime ->
         as_pdf (buffer f) = Throw (JsError message) ->
         upload_document uuid now (Some f) docs
         = ({| doc_status := 500;
               doc_payload := DocMessage (str "Failed to parse PDF: " ++ message) |},
            docs))
  /\ (forall f read message unread,
         mimetype f = pdf_mime ->
         as_pdf (buffer f) = Ok (map Ok read ++ Throw (JsError message) :: unread) ->
         upload_document uuid now (Some f) docs
         = ({| doc_status := 500;
               doc_payload := DocMessage (str "Failed to parse PDF: " ++ message) |},
            docs)).
Proof.
  repeat split.
  - intros file. rewrite upload_document_eq. destruct file as [f|]; [|reflexivity].
    destruct (extractTextFromFile (buffer f) (mimetype f)); [|reflexivity].
    simpl. congruence.
  - intros f H1 H2 H3. rewrite upload_document_eq. unfold extractTextFromFile.
    rewrite !jsstring_eqb_neq by assumption. reflexivity.
  - intros f message Hm Hp. rewrite upload_document_eq. unfold extractTextFromFile.
    rewrite Hm, Hp. reflexivity.
  - intros f read message unread Hm Hp. rewrite upload_document_eq.
    unfold extractTextFromFile. rewrite Hm, Hp.
    change (JsString.eqb pdf_mime (str "text/plain")) with false.
    change (JsString.eqb pdf_mime (str "application/pdf")) with true.
    cbv iota. unfold obind at 1.
    assert (E : forall acc,
               pages_text (map Ok read ++ Throw (JsError message) :: unread) acc
               = Throw (JsError message)).
    { clear Hp. induction read as [|items read IH]; intros acc; [reflexivity|].
      simpl. apply IH. }
    rewrite E. reflexivity.
Qed.

Lemma upload_failures_store_nothing_witness :
  upload_document (str "doc-1") 1000
    (Some {| buffer := {| as_utf8 := str "PNG";
                          as_pdf := Throw (JsError (str "Invalid PDF structure"));
                          as_docx := Throw (JsError (str "not a zip file")) |};
             originalname := str "photo.png";
             mimetype := str "image/png";
             file_size := 3 |})
    []
  = ({| doc_status := 500; doc_payload := DocMessage (str "Unsupported file type") |},
     []).
Proof.
  apply (proj1 (proj2 (proj2 (upload_failures_store_nothing (str "doc-1") 1000%Z [])))).
  - discriminate.
  - discriminate.
  - discriminate.
Defined.

(** X19. When an upload answers 201 with a document, that document is
    stored under the new id: [GET /api/documents/:id] answers 200 with it and
    the listing holds it.  Its [content] is the text extracted from the
    file, its [filename] and [originalName] are both the uploaded file's
    name, and its [mimeType] and [size] are the file's.  The documents under
    the other ids are as before. *)
Theorem uploaded_document_is_stored (uuid : jsstring) (now : Z) (f : UploadedFile)
  (docs docs' : Documents) (document : Document) :
  upload_document uuid now (Some f) docs
  = ({| doc_status := 201; doc_payload := DocJson document |}, docs') ->
  get_document uuid docs'
  = ({| doc_status := 200; doc_payload := DocJson document |}, docs')
  /\ (exists all, list_documents docs' = (Listed all, docs') /\ In document all)
  /\ extractTextFromFile (buffer f) (mimetype f) = Ok (content document)
  /\ doc_id document = uuid
  /\ filename document = originalname f
  /\ originalName document = originalname f
  /\ mimeType document = mimetype f
  /\ size document = file_size f
  /\ uploadedAt document = now
  /\ (forall k, k <> uuid -> JsMap.get docs' k = JsMap.get docs k).
Proof.
  rewrite upload_document_eq.
  destruct (extractTextFromFile (buffer f) (mimetype f)) as [text|];
    [|discriminate].
  intros [= <- <-]. split; [|split].
  - unfold get_document, doc_handle, dbind, getDocument.
    now rewrite map_get_set_same.
  - eexists. split; [reflexivity|].
    apply (Permutation_in _ (Permutation_sym (sort_desc_perm uploadedAt _))).
    apply map_get_In with uuid. apply map_get_set_same.
  - repeat split. intros k Hk. now apply map_get_set_other.
Qed.

Lemma uploaded_document_is_stored_witness :
  get_document (str "doc-1")
    [ (str "doc-1",
       {| doc_id := str "doc-1"; filename := str "lesson.txt";
          originalName := str "lesson.txt"; mimeType := str "text/plain";
          size := 9; content := str "Rain fall"; uploadedAt := 1000 |}) ]
  = ({| doc_status := 200;
        doc_payload :=
          DocJson {| doc_id := str "doc-1"; filename := str "lesson.txt";
                     originalName := str "lesson.txt"; mimeType := str "text/plain";
                     size := 9; content := str "Rain fall"; uploadedAt := 1000 |} |},
     [ (str "doc-1",
        {| doc_id := str "doc-1"; filename := str "lesson.txt";
           originalName := str "lesson.txt"; mimeType := str "text/plain";
           size := 9; content := str "Rain fall"; uploadedAt := 1000 |}) ]).
Proof.
  exact (proj1 (@uploaded_document_is_stored (str "doc-1") 1000%Z
                  {| buffer := {| as_utf8 := str "Rain fall";
                                  as_pdf := Throw (JsError (str "Invalid PDF structure"));
                                  as_docx := Throw (JsError (str "not a zip file")) |};
                     originalname := str "lesson.txt";
                     mimetype := str "text/plain";
                     file_size := 9 |}
                  [] _ _ eq_refl)).
Defined.

(** *** The text of a PDF *)

Lemma trim_start_head (s r : jsstring) (c : N) :
  JsString.trim_start s = c :: r -> JsString.is_trim_space c = false.
Proof.
  induction s as [|x s IH]; simpl; [discriminate|].
  destruct (JsString.is_trim_space x) eqn:E; [exact IH|].
  now intros [= <- _].
Qed.

Lemma trim_start_suffix (s : jsstring) :
  exists dropped, s = dropped ++ JsString.trim_start s.
Proof.
  induction s as [|x s [dropped IH]]; [now exists []|]. simpl.
  destruct (JsString.is_trim_space x).
  - exists (x :: dropped). simpl. now rewrite <- IH.
  - now exists [].
Qed.

(** A trimmed text neither starts nor ends with white space. *)
Lemma trim_ends (s : jsstring) :
  (forall c r, JsString.trim s = c :: r -> JsString.is_trim_space c = false)
  /\ (forall c r, JsString.trim s = r ++ [c] -> JsString.is_trim_space c = false).
Proof.
  unfold JsString.trim.
  set (t := JsString.trim_start s).
  set (u := JsString.trim_start (rev t)).
  split; intros c r H.
  - assert (Hu : u = rev r ++ [c]).
    { rewrite <- (rev_involutive u), H. reflexivity. }
    destruct (trim_start_suffix (rev t)) as [dropped Hd]. fold u in Hd.
    assert (Ht : t = c :: r ++ rev dropped).
    { rewrite <- (rev_involutive t), Hd, Hu, !rev_app_distr, rev_involutive.
      reflexivity. }
    now apply trim_start_head with s (r ++ rev dropped).
  - assert (Hu : u = c :: rev r).
    { rewrite <- (rev_involutive u), H, rev_app_distr. reflexivity. }
    now apply trim_start_head with (rev t) (rev r).
Qed.

Lemma pages_text_all (pages : list (list (option jsstring))) (acc : jsstring) :
  pages_text (map Ok pages) acc
  = Ok (acc ++ List.concat (map (fun items => page_text items ++ [10%N]) pages)).
Proof.
  revert acc. induction pages as [|items pages IH]; intros acc; simpl.
  - now rewrite app_nil_r.
  - rewrite IH, <- !app_assoc. reflexivity.
Qed.

(** X20. The text extracted from a PDF whose pages are all read is the
    pages' texts, each the [str] of its items joined by single spaces and
    followed by a line feed, in page order, trimmed as a whole: it neither
    starts nor ends with white space, and a PDF without pages gives the
    empty text. *)
Theorem pdf_text_is_trimmed_pages (file : FileBuffer)
  (pages : list (list (option jsstring))) :
  as_pdf file = Ok (map Ok pages) ->
  extractTextFromFile file pdf_mime
  = Ok (JsString.trim
          (List.concat (map (fun items => page_text items ++ [10%N]) pages)))
  /\ (forall text c r,
         extractTextFromFile file pdf_mime = Ok text ->
         (text = c :: r -> JsString.is_trim_space c = false)
         /\ (text = r ++ [c] -> JsString.is_trim_space c = false))
  /\ (pages = [] -> extractTextFromFile file pdf_mime = Ok []).
Proof.
  intros Hp.
  assert (E : extractTextFromFile file pdf_mime
              = Ok (JsString.trim
                      (List.concat (map (fun items => page_text items ++ [10%N]) pages)))).
  { unfold extractTextFromFile. rewrite Hp.
    change (JsString.eqb pdf_mime (str "text/plain")) with false.
    change (JsString.eqb pdf_mime (str "application/pdf")) with true.
    cbv iota. unfold obind. now rewrite pages_text_all. }
  split; [exact E|]. split.
  - intros text c r. rewrite E. intros [= <-].
    destruct (trim_ends (List.concat (map (fun items => page_text items ++ [10%N]) pages)))
      as [Hfirst Hlast].
    split; intros H; [now apply Hfirst with r | now apply Hlast with r].
  - intros ->. now rewrite E.
Qed.

Lemma pdf_text_is_trimmed_pages_witness :
  extractTextFromFile
    {| as_utf8 := [];
       as_pdf := Ok [ Ok [ Some (str "Rain"); None; Some (str "fall") ];
                      Ok [ Some (str "River") ] ];
       as_docx := Throw (JsError (str "not a zip file")) |}
    pdf_mime
  = Ok (JsString.trim
          (List.concat (map (fun items => page_text items ++ [10%N])
                     [ [ Some (str "Rain"); None; Some (str "fall") ];
                       [ Some (str "River") ] ]))).
Proof.
  exact (proj1 (@pdf_text_is_trimmed_pages
                  {| as_utf8 := [];
                     as_pdf := Ok [ Ok [ Some (str "Rain"); None; Some (str "fall") ];
                                    Ok [ Some (str "River") ] ];
                     as_docx := Throw (JsError (str "not a zip file")) |}
                  [ [ Some (str "Rain"); None; Some (str "fall") ];
                    [ Some (str "River") ] ]
                  eq_refl)).
Defined.

(** *** Listing and deleting documents *)

(** X21. [GET /api/documents] answers with exactly the stored documents (a
    permutation of the values of the map), the most recently uploaded first,
    documents uploaded at the same time in the order they were stored; the
    documents are left as they are. *)
Theorem documents_listed_newest_first (docs : Documents) :
  exists all,
    list_documents docs = (Listed all, docs)
    /\ Permutation all (JsMap.values docs)
    /\ StronglySorted (fun a b => (uploadedAt b <= uploadedAt a)%Z) all
    /\ forall t, filter (fun d => uploadedAt d =? t)%Z all
                 = filter (fun d => uploadedAt d =? t)%Z (JsMap.values docs).
Proof.
  exists (sort_desc uploadedAt (JsMap.values docs)).
  split; [reflexivity|]. split; [apply sort_desc_perm|].
  split; [apply sort_desc_sorted | intros t; apply sort_desc_stable].
Qed.

Lemma delete_document_eq (param_id : jsstring) (docs : Documents) :
  delete_document param_id docs =
  ((if fst (JsMap.delete docs param_id)
    then {| doc_status := 204; doc_payload := DocNoContent |}
    else {| doc_status := 404;
            doc_payload := DocMessage (str "Document not found") |}),
   snd (JsMap.delete docs param_id)).
Proof.
  unfold delete_document, doc_handle, dbind, deleteDocument, dret.
  destruct (JsMap.delete docs param_id) as [[|] m]; reflexivity.
Qed.

(** The documents keep distinct ids under every route. *)
Lemma document_routes_keep_ids_distinct (docs : Documents) :
  NoDup (map fst docs) ->
  (forall uuid now file,
      NoDup (map fst (snd (upload_document uuid now file docs))))
  /\ (forall param_id, NoDup (map fst (snd (delete_document param_id docs)))).
Proof.
  intros H. split.
  - intros uuid now file. rewrite upload_document_eq.
    destruct file as [f|]; [|assumption].
    destruct (extractTextFromFile (buffer f) (mimetype f)); [|assumption].
    simpl. now apply map_set_keys_unique.
  - intros param_id. rewrite delete_document_eq. simpl.
    now apply map_delete_keys_unique.
Qed.

(** X22. Deleting an id under which no document is stored answers 404
    [{message: "Document not found"}] and leaves the documents as they
    are.  Deleting a stored document answers 204; afterwards [GET
    /api/documents/:id] answers 404 for that id, the documents under the
    other ids are as before, and the remaining documents keep their
    order.  (The ids of a map are distinct.) *)
Theorem delete_document_removes (param_id : jsstring) (docs : Documents) :
  NoDup (map fst docs) ->
  (JsMap.get docs param_id = None ->
   delete_document param_id docs
   = ({| doc_status := 404; doc_payload := DocMessage (str "Document not found") |},
      docs))
  /\ (forall document,
         JsMap.get docs param_id = Some document ->
         let deleted := delete_document param_id docs in
         fst deleted = {| doc_status := 204; doc_payload := DocNoContent |}
         /\ get_document param_id (snd deleted)
            = ({| doc_status := 404;
                  doc_payload := DocMessage (str "Document not found") |},
               snd deleted)
         /\ (forall k, k <> param_id ->
               JsMap.get (snd deleted) k = JsMap.get docs k)
         /\ (exists before after,
                docs = before ++ (param_id, document) :: after
                /\ snd deleted = before ++ after)).
Proof.
  intros Hu. split.
  - intros G. now rewrite delete_document_eq, (map_delete_missing _ _ G).
  - intros document G. simpl. rewrite delete_document_eq.
    rewrite (map_delete_found _ _ G). simpl.
    split; [reflexivity|]. split; [|split].
    + unfold get_document, doc_handle, dbind, getDocument.
      now rewrite map_get_delete_same.
    + intros k Hk. now apply map_get_delete_other.
    + now apply map_delete_values.
Qed.

(** One stored document. *)
Definition sample_document : Document :=
  {| doc_id := str "doc-1"; filename := str "lesson.txt";
     originalName := str "lesson.txt"; mimeType := str "text/plain";
     size := 9; content := str "Rain fall"; uploadedAt := 1000 |}.

Lemma delete_document_removes_witness :
  let deleted := delete_document (str "doc-1") [ (str "doc-1", sample_document) ] in
  fst deleted = {| doc_status := 204; doc_payload := DocNoContent |}
  /\ get_document (str "doc-1") (snd deleted)
     = ({| doc_status := 404;
           doc_payload := DocMessage (str "Document not found") |},
        snd deleted).
Proof.
  assert (Hu : NoDup (map fst [ (str "doc-1", sample_document) ]))
    by (repeat constructor; intros []).
  destruct (proj2 (@delete_document_removes (str "doc-1")
                     [ (str "doc-1", sample_document) ] Hu)
              sample_document eq_refl) as (H1 & H2 & _).
  split; [exact H1 | exact H2].
Defined.

(** ** Saving a song ([POST /api/songs]) *)

(** X23. [POST /api/songs] does not validate: for any body that is not
    [null] or [undefined] it answers 201 and stores a song, readable under
    the new id, whose [title], [topic] and [lyrics] are the body's, even
    when missing ([undefined]); each of [rhythmPattern], [culturalNotes],
    [musicalStyle], [sourceDocumentId] and [sourceText] is the body's value
    when that is truthy and [null] otherwise.  Without a body it answers 500
    [{message: "Failed to save song"}] and stores nothing. *)
Theorem save_song_stores_the_body (uuid : jsstring) (now : Z) (req_body : value)
  (st : State) :
  (is_nullish req_body = true ->
   save_song uuid now req_body st
   = (respond 500 (JsonMessage (str "Failed to save song")), st))
  /\ (is_nullish req_body = false ->
      exists song,
        fst (save_song uuid now req_body st) = respond 201 (JsonSong song)
        /\ get_song uuid (snd (save_song uuid now req_body st))
           = (respond 200 (JsonSong song), snd (save_song uuid now req_body st))
        /\ title song = get_opt req_body (str "title")
        /\ topic song = get_opt req_body (str "topic")
        /\ lyrics song = get_opt req_body (str "lyrics")
        /\ (forall (field : Song -> value) (name : jsstring),
               In (field, name)
                 [ (rhythmPattern, str "rhythmPattern");
                   (culturalNotes, str "culturalNotes");
                   (musicalStyle, str "musicalStyle");
                   (sourceDocumentId, str "sourceDocumentId");
                   (sourceText, str "sourceText") ] ->
               field song
               = if truthy (get_opt req_body name) then get_opt req_body name
                 else VNull)).
Proof.
  rewrite save_song_eq. split; intros N; rewrite N; [reflexivity|].
  exists (saved_song req_body uuid now). split; [reflexivity|]. split.
  - unfold get_song, handle, bind, getSong. simpl. now rewrite map_get_set_same.
  - repeat split. intros field name H. simpl in H.
    assert (E : forall v, nullish_or (or_else v VNull) VNull
                          = if truthy v then v else VNull).
    { intros v. unfold or_else. destruct v; try reflexivity; simpl;
        match goal with |- context [if ?b then _ else _] => destruct b end;
        reflexivity. }
    repeat (destruct H as [[= <- <-]|H]; [apply E|]). destruct H.
Qed.

Lemma save_song_stores_the_body_witness :
  save_song (str "song-2") 2000 VUndefined initial
  = (respond 500 (JsonMessage (str "Failed to save song")), initial).
Proof.
  apply (proj1 (save_song_stores_the_body (str "song-2") 2000%Z VUndefined initial)).
  reflexivity.
Defined.

(** ** Delivering a completion webhook again *)



